(** * quiz_app.py: the Streamlit sports quiz, as a shallow embedding

    The program is one Streamlit script.  Streamlit executes the whole
    script from the top at every user interaction (and after every
    [st.rerun()]); the only data surviving from one execution to the next
    is [st.session_state].  The embedding follows that shape:

    - [Store] is [st.session_state] (every key may be absent);
    - [script] is one execution of the file, top to bottom, for one user
      action ([Event]), reading the random generator and the network from
      a [World];
    - [interact] is the execution for an action followed by the execution
      that [st.rerun()] schedules.

    Python integers are unbounded; the counters of the script start at 0
    and are only incremented, they are modelled by [nat]. *)

From stdpp Require Import gmap strings list fin_maps.

Local Open Scope string_scope.
Local Open Scope list_scope.
Local Open Scope nat_scope.

(** ** Data *)

(** One element of the JSON array the trivia API returns:
    [q["question"]["text"]], [q["image"]] (optional key),
    [q["correctAnswer"]], [q["incorrectAnswers"]]. *)
Record Question := {
  text : string;
  image : option string;
  correctAnswer : string;
  incorrectAnswers : list string;
}.

(** The value stored in [user_answers[i]]: the dict
    [{"user_choice": ..., "correct_answer": ...}]. *)
Record Answer := {
  user_choice : string;
  correct_answer : string;
}.

(** [st.session_state] once [initialize_session_state] has run: the five
    keys exist. *)
Record Session := {
  quiz_started : bool;
  questions : list Question;
  score : nat;
  current_question : nat;
  user_answers : gmap nat Answer;
}.

(** [st.session_state] between two executions: a key may be absent. *)
Record Store := {
  st_quiz_started : option bool;
  st_questions : option (list Question);
  st_score : option nat;
  st_current_question : option nat;
  st_user_answers : option (gmap nat Answer);
}.

(** What the script puts on the page, one constructor per kind of
    [st.*] call the properties below look at. *)
Inductive Element :=
| Warning (msg : string)                     (* st.warning *)
| Info (msg : string)                        (* st.info *)
| Error (msg : string)                       (* st.error *)
| Success (msg : string)                     (* st.success *)
| Header (msg : string)                      (* st.header *)
| QuestionNumber (n : nat)                   (* st.subheader(f"Question {n}:") *)
| Write (msg : string)                       (* st.write *)
| Image (url : string)                       (* st.image *)
| Radio (options : list string)              (* st.radio("Select your answer:", options) *)
| Progress (done total : nat)                (* st.progress(done / total, "Question done of total") *)
| FinalScore (points total : nat)            (* st.subheader(f"Your Final Score: {points} / {total}") *)
| ReviewQuestion (n : nat) (msg : string)    (* st.write(f"**Question {n}:** {msg}") *)
| Balloons.                                  (* st.balloons *)

Global Instance Answer_eq_dec : EqDecision Answer.
Proof. solve_decision. Defined.
Global Instance Question_eq_dec : EqDecision Question.
Proof. solve_decision. Defined.
Global Instance Element_eq_dec : EqDecision Element.
Proof. solve_decision. Defined.

(** ** The random generator

    [random.shuffle] draws from Python's global generator through
    [randbelow].  The generator is modelled by the sequence of its future
    raw draws; [randbelow g n] returns a number below [n] and the
    generator advanced by one draw.  Every behaviour of the real generator
    is the behaviour of some such sequence. *)
Definition Rng := nat → nat.

Definition randbelow (g : Rng) (n : nat) : nat * Rng :=
  (g 0 `mod` n, λ k, g (S k)).

(** [x[i], x[j] = x[j], x[i]].  Python raises IndexError when an index is
    out of range; [shuffle] only swaps with [j <= i < len(x)], and the
    list is returned unchanged otherwise. *)
Definition swap {A} (i j : nat) (x : list A) : list A :=
  match x !! i, x !! j with
  | Some xi, Some xj => <[j := xi]> (<[i := xj]> x)
  | _, _ => x
  end.

(** [random.shuffle(x)]:
<<
    for i in reversed(range(1, len(x))):
        j = randbelow(i + 1)
        x[i], x[j] = x[j], x[i]
>>
    [shuffle_from i] runs the iterations [i, i-1, ..., 1]. *)
Fixpoint shuffle_from {A} (i : nat) (g : Rng) (x : list A) : list A * Rng :=
  match i with
  | 0 => (x, g)
  | S i' =>
      let (j, g') := randbelow g (S i) in
      shuffle_from i' g' (swap i j x)
  end.

Definition shuffle {A} (g : Rng) (x : list A) : list A * Rng :=
  shuffle_from (length x - 1) g x.

(** ** The sidebar's inputs and the network *)

(** The keys of [SPORTS_CATEGORIES].  [st.multiselect] returns a sub-list
    of the options it is given, so the selected sports are keys of the
    dictionary and [SPORTS_CATEGORIES[sport]] never raises KeyError. *)
Inductive Sport :=
| Football | Basketball | Baseball | Soccer | Hockey
| Tennis | Golf | Boxing | MMA | Motorsport.

Definition SPORTS_CATEGORIES (sport : Sport) : string :=
  match sport with
  | Football | Basketball | Baseball | Soccer | Hockey
  | Tennis | Golf | Boxing | MMA | Motorsport => "sport_and_leisure"
  end.

(** The options of the difficulty radio. *)
Inductive Difficulty := easy | medium | hard.

Definition difficulty_name (d : Difficulty) : string :=
  match d with easy => "easy" | medium => "medium" | hard => "hard" end.

(** [sep.join(l)] *)
Fixpoint join (sep : string) (l : list string) : string :=
  match l with
  | [] => ""
  | [a] => a
  | a :: l' => a +:+ sep +:+ join sep l'
  end.

(** The [params] dictionary of the request. *)
Record Params := {
  limit : nat;
  categories : string;
  difficulties : string;
}.

(** How the body of the [try] in [fetch_quiz_questions] ends: [response.json()]
    returns (the decoded body is taken to be a list of question objects,
    the shape the rest of the script indexes into), or [requests.get] /
    [raise_for_status] raise a [RequestException], or [response.json()]
    raises a [ValueError]. *)
Inductive Reply :=
| Json (body : list Question)
| RequestException (e : string)
| ValueError.

(** The network: what the k-th call of [requests.get] from now on ends
    with, for the parameters it is sent. *)
Definition Net := nat → Params → Reply.

Definition requests_get (n : Net) (params : Params) : Reply * Net :=
  (n 0 params, λ k, n (S k)).

Record Fetched := {
  returned : list Question;
  reported : list Element;
  net_after : Net;
}.

(** The [params] dictionary [fetch_quiz_questions] builds. *)
Definition params_of (cats : list string) (difficulty : Difficulty) (lim : nat)
    : Params :=
  {| limit := lim;
     categories := join "," cats;
     difficulties := difficulty_name difficulty |}.

Definition fetch_quiz_questions (n : Net) (cats : list string)
    (difficulty : Difficulty) (lim : nat) : Fetched :=
  let params := params_of cats difficulty lim in
  let (reply, n') := requests_get n params in
  match reply with
  | Json questions =>
      {| returned := questions; reported := []; net_after := n' |}
  | RequestException e =>
      {| returned := [];
         reported := [Error ("Error fetching questions from the API: " +:+ e)];
         net_after := n' |}
  | ValueError =>
      {| returned := [];
         reported := [Error "Failed to decode the API response. The API might be temporarily down."];
         net_after := n' |}
  end.

(** ** Session state *)

(** [initialize_session_state()]: every key that is absent gets its
    default, the others keep their value; the result is the session the
    rest of the script reads. *)
Definition initialize_session_state (st : Store) : Session :=
  {| quiz_started := default false (st_quiz_started st);
     questions := default [] (st_questions st);
     score := default 0 (st_score st);
     current_question := default 0 (st_current_question st);
     user_answers := default ∅ (st_user_answers st) |}.

(** The store in which the five keys hold the fields of [s]. *)
Definition persist (s : Session) : Store :=
  {| st_quiz_started := Some (quiz_started s);
     st_questions := Some (questions s);
     st_score := Some (score s);
     st_current_question := Some (current_question s);
     st_user_answers := Some (user_answers s) |}.

(** The store with no key: a new browser session. *)
Definition cleared : Store :=
  {| st_quiz_started := None; st_questions := None; st_score := None;
     st_current_question := None; st_user_answers := None |}.

(** The keys the script keeps in [st.session_state]. *)
Inductive Key :=
| quiz_started_key | questions_key | score_key
| current_question_key | user_answers_key.

(** [key in st.session_state] *)
Definition present {A} (o : option A) : bool :=
  match o with Some _ => true | None => false end.

(** [st.session_state.keys()] *)
Definition keys (st : Store) : list Key :=
  (if present (st_quiz_started st) then [quiz_started_key] else []) ++
  (if present (st_questions st) then [questions_key] else []) ++
  (if present (st_score st) then [score_key] else []) ++
  (if present (st_current_question st) then [current_question_key] else []) ++
  (if present (st_user_answers st) then [user_answers_key] else []).

(** [del st.session_state[key]] *)
Definition del (key : Key) (st : Store) : Store :=
  match key with
  | quiz_started_key =>
      {| st_quiz_started := None; st_questions := st_questions st;
         st_score := st_score st; st_current_question := st_current_question st;
         st_user_answers := st_user_answers st |}
  | questions_key =>
      {| st_quiz_started := st_quiz_started st; st_questions := None;
         st_score := st_score st; st_current_question := st_current_question st;
         st_user_answers := st_user_answers st |}
  | score_key =>
      {| st_quiz_started := st_quiz_started st; st_questions := st_questions st;
         st_score := None; st_current_question := st_current_question st;
         st_user_answers := st_user_answers st |}
  | current_question_key =>
      {| st_quiz_started := st_quiz_started st; st_questions := st_questions st;
         st_score := st_score st; st_current_question := None;
         st_user_answers := st_user_answers st |}
  | user_answers_key =>
      {| st_quiz_started := st_quiz_started st; st_questions := st_questions st;
         st_score := st_score st; st_current_question := st_current_question st;
         st_user_answers := None |}
  end.

(** The body of [if st.button("Play Again", ...)], up to [st.rerun()]:
<<
    for key in st.session_state.keys():
        del st.session_state[key]
>>
    The keys are listed once, before the first deletion. *)
Definition play_again (st : Store) : Store :=
  foldl (λ acc key, del key acc) st (keys st).

(** The session of a new browser session. *)
Definition fresh : Session := initialize_session_state cleared.

(** What the user sees, read off the conditions of the script: the quiz
    is "started" while the flag is set (line 189 calls clearing it "Mark
    quiz as finished"), and the results block is shown when the flag is
    clear and [user_answers] is a non-empty dict. *)
Inductive Status := NotStarted | InProgress | Finished.

Definition status (s : Session) : Status :=
  if quiz_started s then InProgress
  else if bool_decide (user_answers s ≠ ∅) then Finished
  else NotStarted.

Global Instance Status_eq_dec : EqDecision Status.
Proof. solve_decision. Defined.

(** One user action per execution of the script: at most one button
    reads [True].  [SubmitAnswer] carries the value [st.radio] returns in
    that execution. *)
Inductive Event :=
| Rerender
| StartQuiz (selected_sports : list Sport) (difficulty : Difficulty) (num_questions : nat)
| SubmitAnswer (user_answer : string)
| PlayAgain.

(** What an execution reads from outside the session: the random
    generator and the network. *)
Record World := {
  gen : Rng;
  net : Net;
}.

(** How an execution of the script ends: it reaches the end of the file,
    [st.rerun()] stops it, or an exception does. *)
Inductive Ending := Completed | Rerun | Raised.

Global Instance Ending_eq_dec : EqDecision Ending.
Proof. solve_decision. Defined.

(** ** The script, parameterised by [html.unescape] *)

Section Quiz.

(** [html.unescape] of the Python standard library. *)
Variable unescape : string → string.

(** *** display_question *)

(** What [display_question] returns and shows: the elements put on the
    page, the decoded correct answer (second component of the returned
    pair) and the advanced generator.  The first component of the pair
    the source returns is the value of the radio widget, which is the
    user's input and is supplied by the [Event]. *)
Record Displayed := {
  shown : list Element;
  decoded_options : list string;
  decoded_correct : string;
  gen_after : Rng;
}.

Definition display_question (g : Rng) (question_data : Question)
    (question_number : nat) : Displayed :=
  let question_text := unescape (text question_data) in
  let img := match image question_data with
             | Some url => if bool_decide (url = "") then [] else [Image url]
             | None => []
             end in
  let options := incorrectAnswers question_data ++ [correctAnswer question_data] in
  let (options, g') := shuffle g options in
  let decoded_options := unescape <$> options in
  {| shown := [QuestionNumber question_number; Write question_text] ++ img
              ++ [Radio decoded_options];
     decoded_options := decoded_options;
     decoded_correct := unescape (correctAnswer question_data);
     gen_after := g' |}.

(** *** The sidebar: the Start Quiz button *)

(** A block of the script: the session it leaves, what it put on the
    page, the world after it, and whether the script goes on. *)
Record Block := {
  b_session : Session;
  b_page : list Element;
  b_world : World;
  b_ending : Ending;
}.

Definition set_questions (qs : list Question) (s : Session) : Session :=
  {| quiz_started := quiz_started s; questions := qs; score := score s;
     current_question := current_question s; user_answers := user_answers s |}.

Definition sidebar (w : World) (ev : Event) (s : Session) : Block :=
  match ev with
  | StartQuiz selected_sports difficulty num_questions =>
      match selected_sports with
      | [] =>
          {| b_session := s;
             b_page := [Warning "Please select at least one sports category."];
             b_world := w; b_ending := Completed |}
      | _ :: _ =>
          let api_categories := SPORTS_CATEGORIES <$> selected_sports in
          let f := fetch_quiz_questions (net w) api_categories difficulty num_questions in
          let w' := {| gen := gen w; net := net_after f |} in
          match returned f with
          | [] =>
              {| b_session := set_questions (returned f) s;
                 b_page := reported f; b_world := w'; b_ending := Completed |}
          | _ :: _ =>
              {| b_session := {| quiz_started := true; questions := returned f;
                                 score := 0; current_question := 0;
                                 user_answers := ∅ |};
                 b_page := reported f; b_world := w'; b_ending := Rerun |}
          end
      end
  | _ => {| b_session := s; b_page := []; b_world := w; b_ending := Completed |}
  end.

(** *** The main area: the current question and the Submit Answer button *)

Definition welcome : string :=
  "Welcome to the Sports Quiz Challenge! Adjust the settings on the left and click 'Start Quiz' to begin.".

(** The body of [if st.button("Submit Answer", ...)], up to [st.rerun()]:
    the session it leaves and the feedback it shows. *)
Definition submit_answer (user_answer correct_answer : string) (s : Session)
    : Session * Element :=
  let answers := <[current_question s :=
                     {| user_choice := user_answer; correct_answer := correct_answer |}]>
                 (user_answers s) in
  let hit := bool_decide (user_answer = correct_answer) in
  let score' := if hit then score s + 1 else score s in
  let feedback :=
    if hit then Success "Correct! 🎉"
    else Error ("Incorrect. The correct answer was: **" +:+ correct_answer +:+ "**") in
  let current' := current_question s + 1 in
  let started' :=
    if bool_decide (length (questions s) ≤ current') then false else quiz_started s in
  ({| quiz_started := started'; questions := questions s; score := score';
      current_question := current'; user_answers := answers |}, feedback).

(** [st.progress] refuses a value above 1.0 and [questions[current_question]]
    raises IndexError; both happen exactly when
    [current_question >= len(questions)], and the script then stops at
    the first of them with the session untouched. *)
Definition main_area (w : World) (ev : Event) (s : Session) : Block :=
  if negb (quiz_started s) then
    {| b_session := s; b_page := [Info welcome]; b_world := w; b_ending := Completed |}
  else
    match questions s with
    | [] => {| b_session := s; b_page := []; b_world := w; b_ending := Completed |}
    | _ :: _ =>
        match questions s !! current_question s with
        | None => {| b_session := s; b_page := []; b_world := w; b_ending := Raised |}
        | Some current_q_data =>
            let progress := Progress (current_question s + 1) (length (questions s)) in
            let d := display_question (gen w) current_q_data (current_question s + 1) in
            let w' := {| gen := gen_after d; net := net w |} in
            match ev with
            | SubmitAnswer user_answer =>
                let (s', feedback) := submit_answer user_answer (decoded_correct d) s in
                {| b_session := s'; b_page := progress :: shown d ++ [feedback];
                   b_world := w'; b_ending := Rerun |}
            | _ =>
                {| b_session := s; b_page := progress :: shown d;
                   b_world := w'; b_ending := Completed |}
            end
        end
    end.

(** *** The results block: final score, review and the Play Again button *)

(** The [st.container()] of one reviewed question. *)
Definition review_container (i : nat) (q_data : Question) (review : Answer)
    : list Element :=
  ReviewQuestion (i + 1) (unescape (text q_data)) ::
  (if bool_decide (user_choice review = correct_answer review) then
     [Success ("Your answer: " +:+ user_choice review +:+ " (Correct)")]
   else
     [Error ("Your answer: " +:+ user_choice review +:+ " (Incorrect)");
      Info ("Correct answer: " +:+ correct_answer review)]).

(** [for i, q_data in enumerate(questions)], from index [i] on: the
    containers put on the page, in order. *)
Fixpoint review_from (i : nat) (qs : list Question) (answers : gmap nat Answer)
    : list (list Element) :=
  match qs with
  | [] => []
  | q_data :: rest =>
      match answers !! i with
      | Some review => [review_container i q_data review]
      | None => []
      end ++ review_from (S i) rest answers
  end.

Definition review (s : Session) : list (list Element) :=
  review_from 0 (questions s) (user_answers s).

Record Run := {
  store : Store;
  page : list Element;
  world : World;
  ending : Ending;
}.

Definition results (w : World) (ev : Event) (s : Session) : Run :=
  if negb (quiz_started s) && bool_decide (user_answers s ≠ ∅) then
    let pg := [Balloons; Header "Quiz Over!";
               FinalScore (score s) (length (questions s));
               Header "Review Your Answers:"] ++ concat (review s) in
    match ev with
    | PlayAgain =>
        {| store := play_again (persist s); page := pg; world := w; ending := Rerun |}
    | _ => {| store := persist s; page := pg; world := w; ending := Completed |}
    end
  else {| store := persist s; page := []; world := w; ending := Completed |}.

(** *** One execution of the script *)

Definition script (w : World) (ev : Event) (st : Store) : Run :=
  let side := sidebar w ev (initialize_session_state st) in
  match b_ending side with
  | Completed =>
      let main := main_area (b_world side) ev (b_session side) in
      match b_ending main with
      | Completed =>
          let res := results (b_world main) ev (b_session main) in
          {| store := store res; page := b_page side ++ b_page main ++ page res;
             world := world res; ending := ending res |}
      | e =>
          {| store := persist (b_session main); page := b_page side ++ b_page main;
             world := b_world main; ending := e |}
      end
  | e =>
      {| store := persist (b_session side); page := b_page side;
         world := b_world side; ending := e |}
  end.

(** The execution for a user action and, when it ends in [st.rerun()],
    the execution Streamlit starts right after it (no button reads
    [True] in that one). *)
Definition interact (w : World) (ev : Event) (st : Store) : Run :=
  let r := script w ev st in
  match ending r with
  | Rerun => script (world r) Rerender (store r)
  | _ => r
  end.

(** The session a user action leaves, from session [s]. *)
Definition after (w : World) (ev : Event) (s : Session) : Session :=
  initialize_session_state (store (interact w ev (persist s))).

End Quiz.

(** ** Sequences of actions and reachable sessions *)

(** The user's actions one after the other, each on the store and the
    world the previous one left. *)
Fixpoint interact_all (unescape : string → string) (w : World)
    (evs : list Event) (st : Store) : Store * World :=
  match evs with
  | [] => (st, w)
  | ev :: evs' =>
      let r := interact unescape w ev st in
      interact_all unescape (world r) evs' (store r)
  end.

(** The sessions the app can be in: what a new browser session holds,
    and what any user action leaves from such a session, whatever the
    generator draws and the network answers. *)
Inductive Reachable (unescape : string → string) : Session → Prop :=
| reach_fresh : Reachable unescape fresh
| reach_after w ev s :
    Reachable unescape s → Reachable unescape (after unescape w ev s).

(** Reading [questions[current_question]] in the quiz branch is in
    bounds. *)
Definition in_bounds (s : Session) : Prop :=
  quiz_started s = true → questions s ≠ [] →
  current_question s < length (questions s).

(** Every question index below [current_question] has its answer
    recorded, and once the quiz is over (results block shown) that is
    every index of the question list. *)
Definition answered (s : Session) : Prop :=
  (∀ i, i < current_question s → i < length (questions s) →
        is_Some (user_answers s !! i))
  ∧ (quiz_started s = false → user_answers s ≠ ∅ →
     length (questions s) ≤ current_question s).

(** The number of submitted choices equal to the decoded correct answer
    of their question. *)
Definition hits (unescape : string → string) (choices : list string)
    (qs : list Question) : nat :=
  length (filter (λ cq, cq.1 = unescape (correctAnswer cq.2)) (zip choices qs)).

(** ** A small quiz, for the examples *)

(** [html.unescape] on strings that hold no entity. *)
Definition plain (s : string) : string := s.

Definition q_a : Question :=
  {| text := "Q0"; image := None; correctAnswer := "A";
     incorrectAnswers := ["B"; "C"] |}.

Definition q_x : Question :=
  {| text := "Q1"; image := None; correctAnswer := "X";
     incorrectAnswers := ["Y"] |}.

(** A generator whose k-th raw draw is k. *)
Definition counting : Rng := λ k, k.

(** A network that answers the first request with two questions, the
    second with a body that is not JSON, and fails afterwards. *)
Definition net_demo : Net := λ k _,
  match k with
  | 0 => Json [q_a; q_x]
  | 1 => ValueError
  | _ => RequestException "timeout"
  end.

Definition w_demo : World := {| gen := counting; net := net_demo |}.

(** The network that answers every request with the given reply. *)
Definition always (reply : Reply) : Net := λ _ _, reply.

(** The session after Start Quiz in a new browser session. *)
Definition s_started : Session :=
  {| quiz_started := true; questions := [q_a; q_x]; score := 0;
     current_question := 0; user_answers := ∅ |}.

(** The session after the answers "A" and "Y". *)
Definition s_finished : Session :=
  {| quiz_started := false; questions := [q_a; q_x]; score := 1;
     current_question := 2;
     user_answers := {[ 0 := {| user_choice := "A"; correct_answer := "A" |};
                        1 := {| user_choice := "Y"; correct_answer := "X" |} ]} |}.

(** The same session, through the app: Start Quiz in a new browser
    session, then the answers "A" and "Y". *)
Definition s_played : Session :=
  after plain w_demo (SubmitAnswer "Y")
    (after plain w_demo (SubmitAnswer "A")
       (after plain w_demo (StartQuiz [Football] medium 5) fresh)).

(** A finished session in which question 2 has no recorded answer. *)
Definition s_gap : Session :=
  {| quiz_started := false; questions := [q_a; q_x]; score := 1;
     current_question := 2;
     user_answers := {[ 0 := {| user_choice := "A"; correct_answer := "A" |} ]} |}.

(** ** Counting right answers *)

(** Whether the answer recorded for question index [i] is the right one:
    the comparison [review['user_choice'] == review['correct_answer']]
    of the review, false where nothing is recorded. *)
Definition is_right (answers : gmap nat Answer) (i : nat) : bool :=
  match answers !! i with
  | Some r => bool_decide (user_choice r = correct_answer r)
  | None => false
  end.

(** The number of question indices below [n] whose recorded answer is
    the right one. *)
Fixpoint right_answers (answers : gmap nat Answer) (n : nat) : nat :=
  match n with
  | 0 => 0
  | S n' => right_answers answers n' + (if is_right answers n' then 1 else 0)
  end.

(** A green box ([st.success]). *)
Definition is_success (e : Element) : bool :=
  match e with Success _ => true | _ => false end.

(** The number of containers of a review that hold a green box, the
    "(Correct)" ones. *)
Definition marked_correct (rev : list (list Element)) : nat :=
  length (filter (λ c, existsb is_success c = true) rev).

(** The five keys, in the order [keys] lists them. *)
Definition all_keys : list Key :=
  [quiz_started_key; questions_key; score_key; current_question_key;
   user_answers_key].


(** ** Properties of the shuffle *)

Section Shuffle.
Context {A : Type}.
Implicit Types (x : list A) (g : Rng).

Lemma swap_Permutation i j x : swap i j x ≡ₚ x.
Proof.
  unfold swap.
  destruct (x !! i) as [xi|] eqn:Hi; [|done].
  destruct (x !! j) as [xj|] eqn:Hj; [|done].
  by apply Permutation_insert_swap.
Qed.

Lemma shuffle_from_Permutation i g x : (shuffle_from i g x).1 ≡ₚ x.
Proof.
  revert g x. induction i as [|i IH]; intros g x; [done|].
  simpl. rewrite IH. apply swap_Permutation.
Qed.

Lemma shuffle_Permutation g x : (shuffle g x).1 ≡ₚ x.
Proof. apply shuffle_from_Permutation. Qed.

End Shuffle.

Section Properties.

Variable unescape : string → string.

Lemma display_question_options g q n :
  decoded_options (display_question unescape g q n)
  = unescape <$> (shuffle g (incorrectAnswers q ++ [correctAnswer q])).1.
Proof.
  unfold display_question.
  by destruct (shuffle g (incorrectAnswers q ++ [correctAnswer q])).
Qed.

Lemma display_question_correct g q n :
  decoded_correct (display_question unescape g q n) = unescape (correctAnswer q).
Proof.
  unfold display_question.
  by destruct (shuffle g (incorrectAnswers q ++ [correctAnswer q])).
Qed.

Lemma display_question_Permutation g q n :
  decoded_options (display_question unescape g q n)
  ≡ₚ (unescape <$> incorrectAnswers q) ++ [unescape (correctAnswer q)].
Proof.
  rewrite display_question_options, shuffle_Permutation.
  by rewrite fmap_app.
Qed.

Lemma display_question_shown g q n :
  Radio (decoded_options (display_question unescape g q n))
  ∈ shown (display_question unescape g q n).
Proof.
  unfold display_question.
  destruct (shuffle g (incorrectAnswers q ++ [correctAnswer q])); simpl.
  rewrite !elem_of_cons, elem_of_app, list_elem_of_singleton. auto.
Qed.

(** C4: the options [display_question] offers are a permutation of the
    decoded incorrect answers together with the decoded correct answer:
    nothing is dropped or duplicated, the correct answer the function
    returns is among them, and there are [len(incorrectAnswers) + 1] of
    them. *)
Theorem options_are_permutation g q n :
  let d := display_question unescape g q n in
  decoded_options d ≡ₚ (unescape <$> incorrectAnswers q) ++ [unescape (correctAnswer q)]
  ∧ decoded_correct d ∈ decoded_options d
  ∧ length (decoded_options d) = length (incorrectAnswers q) + 1.
Proof.
  pose proof (display_question_Permutation g q n) as Hp.
  simpl. split; [done|]. split.
  - rewrite Hp, display_question_correct. set_solver.
  - rewrite Hp, length_app, length_fmap. done.
Qed.

(** *** One execution of the script, action by action *)

Lemma initialize_persist s : initialize_session_state (persist s) = s.
Proof. by destruct s. Qed.

Lemma play_again_cleared st : play_again st = cleared.
Proof. by destruct st as [[?|] [?|] [?|] [?|] [?|]]. Qed.

(** An execution in which no button is pressed changes nothing in the
    session, and does not ask for a rerun. *)
Lemma script_Rerender w s :
  store (script unescape w Rerender (persist s)) = persist s
  ∧ ending (script unescape w Rerender (persist s)) ≠ Rerun.
Proof.
  unfold script. rewrite initialize_persist. simpl.
  unfold main_area.
  destruct (quiz_started s) eqn:Hq; simpl.
  - destruct (questions s) as [|q0 qs] eqn:Hqs; simpl.
    + unfold results. rewrite Hq. by simpl.
    + destruct ((q0 :: qs) !! current_question s) eqn:Hl; simpl; [|done].
      unfold results. rewrite Hq. by simpl.
  - unfold results. rewrite Hq. simpl.
    by destruct (bool_decide (user_answers s ≠ ∅)).
Qed.

Lemma rerun_keeps (r : Run) s :
  store r = persist s →
  store (script unescape (world r) Rerender (store r)) = persist s.
Proof. intros ->. apply script_Rerender. Qed.

(** What a user action leaves is what the execution for it leaves: the
    rerun changes nothing, except that it re-creates the keys Play Again
    deleted. *)
Lemma after_script w ev s :
  after unescape w ev s
  = initialize_session_state (store (script unescape w ev (persist s))).
Proof.
  unfold after, interact.
  destruct (ending (script unescape w ev (persist s))) eqn:He; try done.
  remember (script unescape w ev (persist s)) as r.
  assert (store r = persist (initialize_session_state (store r))
          ∨ store r = cleared) as [Hs | Hs].
  { subst r. unfold script. rewrite initialize_persist.
    destruct (b_ending (sidebar w ev s)); simpl; auto.
    destruct (b_ending (main_area unescape _ ev _)); simpl;
      rewrite ?initialize_persist; auto.
    unfold results.
    destruct (negb _ && bool_decide _); simpl; rewrite ?initialize_persist; auto.
    destruct ev; simpl; rewrite ?initialize_persist, ?play_again_cleared; auto. }
  - rewrite (rerun_keeps r _ Hs). by rewrite initialize_persist.
  - rewrite Hs. unfold script. by simpl.
Qed.

(** The Submit Answer button, when the quiz branch shows a question. *)
Lemma script_SubmitAnswer w a s q :
  quiz_started s = true →
  questions s !! current_question s = Some q →
  let d := display_question unescape (gen w) q (current_question s + 1) in
  let sf := submit_answer a (unescape (correctAnswer q)) s in
  script unescape w (SubmitAnswer a) (persist s)
  = {| store := persist sf.1;
       page := Progress (current_question s + 1) (length (questions s))
               :: shown d ++ [sf.2];
       world := {| gen := gen_after d; net := net w |};
       ending := Rerun |}.
Proof.
  intros Hq Hl. unfold script. rewrite initialize_persist.
  cbn [sidebar b_ending b_world b_session b_page].
  unfold main_area. rewrite Hq. cbn [negb].
  destruct (questions s) as [|q0 qs] eqn:Hqs; [by rewrite lookup_nil in Hl|].
  rewrite Hl, display_question_correct.
  unfold submit_answer. rewrite Hq, Hqs. reflexivity.
Qed.

(** The Start Quiz button with a selection and a non-empty answer of
    the API. *)
Lemma script_StartQuiz_some w sp sports difficulty num q qs s :
  returned (fetch_quiz_questions (net w) (SPORTS_CATEGORIES <$> sp :: sports)
              difficulty num) = q :: qs →
  let f := fetch_quiz_questions (net w) (SPORTS_CATEGORIES <$> sp :: sports)
             difficulty num in
  script unescape w (StartQuiz (sp :: sports) difficulty num) (persist s)
  = {| store := persist {| quiz_started := true; questions := q :: qs; score := 0;
                           current_question := 0; user_answers := ∅ |};
       page := reported f;
       world := {| gen := gen w; net := net_after f |};
       ending := Rerun |}.
Proof.
  intros Hf. unfold script. rewrite initialize_persist.
  unfold sidebar. rewrite Hf. by simpl.
Qed.

(** The Start Quiz button with a selection, when the fetch returns the
    empty list: the execution goes on to the main area and the results
    block. *)
Lemma script_StartQuiz_none w sp sports difficulty num s :
  returned (fetch_quiz_questions (net w) (SPORTS_CATEGORIES <$> sp :: sports)
              difficulty num) = [] →
  let f := fetch_quiz_questions (net w) (SPORTS_CATEGORIES <$> sp :: sports)
             difficulty num in
  script unescape w (StartQuiz (sp :: sports) difficulty num) (persist s)
  = {| store := persist (set_questions [] s);
       page := reported f ++
               (if quiz_started s then []
                else Info welcome ::
                     if bool_decide (user_answers s ≠ ∅) then
                       [Balloons; Header "Quiz Over!"; FinalScore (score s) 0;
                        Header "Review Your Answers:"]
                     else []);
       world := {| gen := gen w; net := net_after f |};
       ending := Completed |}.
Proof.
  intros Hf. unfold script. rewrite initialize_persist.
  unfold sidebar. rewrite Hf.
  destruct s as [started qs0 sc cur answers].
  unfold main_area, results. simpl.
  destruct started; simpl; [done|].
  by destruct (bool_decide (answers ≠ ∅)).
Qed.

(** The main area changes the session only through the Submit Answer
    button, and the results block only through the Play Again button. *)
Lemma main_area_session w ev s :
  (∀ a, ev ≠ SubmitAnswer a) →
  b_session (main_area unescape w ev s) = s.
Proof.
  intros Hev. unfold main_area.
  destruct (negb (quiz_started s)); [done|].
  destruct (questions s) as [|q0 qs]; [done|].
  destruct ((q0 :: qs) !! current_question s); [|done].
  destruct ev; try done. by destruct (Hev user_answer).
Qed.

Lemma results_store w ev s :
  ev ≠ PlayAgain → store (results unescape w ev s) = persist s.
Proof.
  intros Hev. unfold results.
  destruct (negb (quiz_started s) && bool_decide (user_answers s ≠ ∅)); [|done].
  by destruct ev.
Qed.

(** Every user action leaves the session as it was, or empties the
    question list (a Start Quiz whose fetch returned nothing), or starts
    a quiz on a non-empty list, or records one answer in the quiz
    branch, or resets the session. *)
Lemma after_cases w ev s :
  after unescape w ev s = s
  ∨ after unescape w ev s = set_questions [] s
  ∨ (∃ q qs, after unescape w ev s
             = {| quiz_started := true; questions := q :: qs; score := 0;
                  current_question := 0; user_answers := ∅ |})
  ∨ (∃ a q, ev = SubmitAnswer a ∧ quiz_started s = true
            ∧ questions s !! current_question s = Some q
            ∧ after unescape w ev s
              = (submit_answer a (unescape (correctAnswer q)) s).1)
  ∨ (ev = PlayAgain ∧ status s = Finished ∧ after unescape w ev s = fresh).
Proof.
  rewrite after_script.
  destruct ev as [|sports difficulty num|a|].
  - left. by rewrite (proj1 (script_Rerender w s)), initialize_persist.
  - destruct sports as [|sp sports].
    + left. unfold script. rewrite initialize_persist.
      cbn [sidebar b_ending b_world b_session b_page].
      assert (b_session (main_area unescape w (StartQuiz [] difficulty num) s) = s)
        as Hm by (by apply main_area_session).
      destruct (b_ending (main_area unescape w _ s)); cbn [store];
        rewrite Hm, ?results_store, initialize_persist; done.
    + destruct (returned (fetch_quiz_questions (net w)
                  (SPORTS_CATEGORIES <$> sp :: sports) difficulty num))
        as [|q qs] eqn:Hf.
      * right; left. rewrite script_StartQuiz_none by done.
        cbn [store]. by rewrite initialize_persist.
      * right; right; left. exists q, qs.
        rewrite (script_StartQuiz_some _ _ _ _ _ q qs) by done.
        cbn [store]. by rewrite initialize_persist.
  - destruct (quiz_started s) eqn:Hq;
      [destruct (questions s !! current_question s) as [q|] eqn:Hl|].
    + right; right; right; left. exists a, q. repeat split; try done.
      rewrite (script_SubmitAnswer w a s q) by done.
      cbn [store]. by rewrite initialize_persist.
    + left. unfold script. rewrite initialize_persist.
      cbn [sidebar b_ending b_world b_session b_page].
      unfold main_area. rewrite Hq. cbn [negb].
      destruct (questions s) as [|q0 qs] eqn:Hqs.
      * cbn [b_ending b_session b_world store].
        by rewrite results_store, initialize_persist.
      * rewrite Hl. cbn [b_ending b_session store].
        by rewrite initialize_persist.
    + left. unfold script. rewrite initialize_persist.
      cbn [sidebar b_ending b_world b_session b_page].
      unfold main_area. rewrite Hq. cbn [negb b_ending b_session b_world store].
      by rewrite results_store, initialize_persist.
  - unfold script. rewrite initialize_persist.
    cbn [sidebar b_ending b_world b_session b_page].
    assert (b_session (main_area unescape w PlayAgain s) = s)
      as Hm by (by apply main_area_session).
    destruct (b_ending (main_area unescape w PlayAgain s)); cbn [store];
      rewrite ?Hm, ?initialize_persist; auto.
    unfold results, status.
    destruct (quiz_started s); cbn [negb andb store];
      rewrite ?initialize_persist; auto.
    destruct (bool_decide (user_answers s ≠ ∅)); cbn [store];
      rewrite ?initialize_persist, ?play_again_cleared; auto.
    right; right; right; right. done.
Qed.

(** *** Invariants of the session *)

Lemma in_bounds_fresh : in_bounds fresh.
Proof. intros Hq. done. Qed.

Lemma in_bounds_submit a c s :
  quiz_started s = true → in_bounds (submit_answer a c s).1.
Proof.
  intros Hq. unfold in_bounds, submit_answer. cbn [fst quiz_started questions current_question].
  rewrite Hq. case_bool_decide; [done|]. intros _ _. lia.
Qed.

Lemma in_bounds_after w ev s : in_bounds s → in_bounds (after unescape w ev s).
Proof.
  intros Hs.
  destruct (after_cases w ev s)
    as [-> | [-> | [(q & qs & ->) | [(a & q & _ & Hq & _ & ->) | (_ & _ & ->)]]]].
  - done.
  - intros _ Hne. done.
  - intros _ _. simpl. lia.
  - by apply in_bounds_submit.
  - apply in_bounds_fresh.
Qed.

Lemma Reachable_in_bounds s : Reachable unescape s → in_bounds s.
Proof.
  induction 1 as [|w ev s _ IH]; [apply in_bounds_fresh | by apply in_bounds_after].
Qed.

Lemma script_initialize w ev st :
  script unescape w ev st
  = script unescape w ev (persist (initialize_session_state st)).
Proof. unfold script. by rewrite initialize_persist. Qed.

Lemma main_area_no_raise w ev s :
  in_bounds s → b_ending (main_area unescape w ev s) ≠ Raised.
Proof.
  intros Hs. unfold main_area.
  destruct (quiz_started s) eqn:Hq; cbn [negb]; [|done].
  destruct (questions s) as [|q0 qs] eqn:Hqs; [done|].
  destruct ((q0 :: qs) !! current_question s) eqn:Hl.
  - by destruct ev.
  - apply lookup_ge_None in Hl.
    specialize (Hs Hq). rewrite Hqs in Hs. specialize (Hs ltac:(done)). lia.
Qed.

Lemma results_no_raise w ev s : ending (results unescape w ev s) ≠ Raised.
Proof.
  unfold results.
  destruct (negb (quiz_started s) && bool_decide (user_answers s ≠ ∅)); [|done].
  by destruct ev.
Qed.

Lemma sidebar_in_bounds w ev s :
  in_bounds s →
  in_bounds (b_session (sidebar w ev s)) ∧ b_ending (sidebar w ev s) ≠ Raised.
Proof.
  intros Hs. destruct ev as [|sports difficulty num|a|]; try done.
  destruct sports as [|sp sports]; [done|].
  unfold sidebar.
  destruct (returned (fetch_quiz_questions (net w) _ difficulty num)); simpl.
  - split; [|done]. intros _ Hne. done.
  - split; [|done]. intros _ _. simpl. lia.
Qed.

Lemma script_no_raise w ev s :
  in_bounds s → ending (script unescape w ev (persist s)) ≠ Raised.
Proof.
  intros Hs. unfold script. rewrite initialize_persist.
  destruct (sidebar_in_bounds w ev s Hs) as [Hb He].
  destruct (b_ending (sidebar w ev s)) eqn:Hside; cbn [ending]; try done.
  pose proof (main_area_no_raise (b_world (sidebar w ev s)) ev _ Hb) as Hm.
  destruct (b_ending (main_area unescape _ ev _)) eqn:Hmain; cbn [ending]; try done.
  apply results_no_raise.
Qed.

Lemma interact_no_raise w ev s :
  in_bounds s → ending (interact unescape w ev (persist s)) ≠ Raised.
Proof.
  intros Hs. unfold interact.
  pose proof (script_no_raise w ev s Hs) as Hn.
  destruct (ending (script unescape w ev (persist s))) eqn:He; rewrite ?He; try done.
  rewrite script_initialize. apply script_no_raise.
  rewrite <- after_script. by apply in_bounds_after.
Qed.

(** C9: a session in which, whenever the quiz is marked started and the
    question list is non-empty, [current_question] is below the number
    of questions, is left in such a session by every user action (Start
    Quiz, Submit Answer, Play Again, or none), and no execution for it
    stops on an out-of-range [questions[current_question]]. *)
Theorem current_question_in_bounds w ev s :
  in_bounds s →
  in_bounds (after unescape w ev s)
  ∧ in_bounds (initialize_session_state (store (script unescape w ev (persist s))))
  ∧ ending (script unescape w ev (persist s)) ≠ Raised
  ∧ ending (interact unescape w ev (persist s)) ≠ Raised.
Proof.
  intros Hs. split; [by apply in_bounds_after|].
  split; [rewrite <- after_script; by apply in_bounds_after|].
  split; [by apply script_no_raise | by apply interact_no_raise].
Qed.

(** *** Submit Answer *)

(** C3: in a session showing question [q] (the quiz is started and
    [q] is the question at the current index), one press of Submit
    Answer with the choice [a] stores, under the current index, the
    choice together with the decoded correct answer of [q]; adds 1 to the
    score exactly when the choice equals that correct answer; advances
    the index by one; and the feedback it shows last names the correct
    answer of [q], the question just answered.  A choice that is not
    among the options shown is stored all the same and scores nothing. *)
Theorem submit_records_answer w a s q :
  quiz_started s = true →
  questions s !! current_question s = Some q →
  let r := script unescape w (SubmitAnswer a) (persist s) in
  let s' := after unescape w (SubmitAnswer a) s in
  let correct := unescape (correctAnswer q) in
  let d := display_question unescape (gen w) q (current_question s + 1) in
  store r = persist s'
  ∧ user_answers s'
    = <[current_question s := {| user_choice := a; correct_answer := correct |}]>
      (user_answers s)
  ∧ score s' = score s + (if bool_decide (a = correct) then 1 else 0)
  ∧ current_question s' = current_question s + 1
  ∧ questions s' = questions s
  ∧ last (page r)
    = Some (if bool_decide (a = correct) then Success "Correct! 🎉"
            else Error ("Incorrect. The correct answer was: **" +:+ correct +:+ "**"))
  ∧ (a ∉ decoded_options d →
     a ≠ correct ∧ score s' = score s
     ∧ user_answers s' !! current_question s
       = Some {| user_choice := a; correct_answer := correct |}).
Proof.
  intros Hq Hl r s' correct d.
  assert (s' = (submit_answer a correct s).1) as Hs'.
  { unfold s'. rewrite after_script, (script_SubmitAnswer w a s q) by done.
    cbn [store]. by rewrite initialize_persist. }
  assert (r = script unescape w (SubmitAnswer a) (persist s)) as Hr by done.
  rewrite (script_SubmitAnswer w a s q) in Hr by done.
  assert (a ∉ decoded_options d → a ≠ correct) as Hout.
  { intros Hnot ->. apply Hnot. unfold d.
    rewrite display_question_Permutation. set_solver. }
  rewrite Hr, Hs'. cbn [store page].
  unfold submit_answer. cbn [fst snd user_answers score current_question questions].
  split; [done|]. split; [done|].
  split; [case_bool_decide; lia|].
  split; [done|]. split; [done|].
  split; [by rewrite app_comm_cons, last_snoc|].
  intros Hnot. split; [by apply Hout|].
  split; [by rewrite bool_decide_eq_false_2 by (by apply Hout)|].
  apply lookup_insert_eq.
Qed.

(** *** Start Quiz when the fetch returns nothing *)




(** *** The requests a Start Quiz sends *)

Lemma main_area_net w ev s : net (b_world (main_area unescape w ev s)) = net w.
Proof.
  unfold main_area.
  destruct (negb (quiz_started s)); [done|].
  destruct (questions s) as [|q0 qs]; [done|].
  destruct ((q0 :: qs) !! current_question s); [|done].
  by destruct ev.
Qed.

Lemma results_world w ev s : world (results unescape w ev s) = w.
Proof.
  unfold results.
  destruct (negb (quiz_started s) && bool_decide (user_answers s ≠ ∅)); [|done].
  by destruct ev.
Qed.

Lemma script_Rerender_net w st :
  net (world (script unescape w Rerender st)) = net w.
Proof.
  unfold script. cbn [sidebar b_ending b_world b_session b_page].
  destruct (b_ending (main_area unescape w Rerender _)); cbn [world];
    rewrite ?results_world; apply main_area_net.
Qed.



(** C10: when the fetch of a Start Quiz returns the empty list (the
    request failed, the body was not JSON, or the API sent no question),
    the stored question list becomes the empty list and the started
    flag, the score, the current index and the recorded answers keep
    their values.  The page of that execution then is the messages of
    the fetch followed, when the quiz is not started, by the welcome
    text and, when answers of an earlier quiz are recorded, by the
    results block with the earlier score out of 0 questions and an empty
    review; so after a finished quiz the results block reports the
    earlier score against a total of zero questions. *)
Theorem failed_start_keeps_session w sp sports difficulty num s :
  returned (fetch_quiz_questions (net w) (SPORTS_CATEGORIES <$> sp :: sports)
              difficulty num) = [] →
  let f := fetch_quiz_questions (net w) (SPORTS_CATEGORIES <$> sp :: sports)
             difficulty num in
  let r := script unescape w (StartQuiz (sp :: sports) difficulty num) (persist s) in
  let s' := after unescape w (StartQuiz (sp :: sports) difficulty num) s in
  store r = persist s'
  ∧ questions s' = []
  ∧ quiz_started s' = quiz_started s
  ∧ score s' = score s
  ∧ current_question s' = current_question s
  ∧ user_answers s' = user_answers s
  ∧ status s' = status s
  ∧ ending r = Completed
  ∧ page r = reported f ++
             (if quiz_started s then []
              else Info welcome ::
                   if bool_decide (user_answers s ≠ ∅) then
                     [Balloons; Header "Quiz Over!"; FinalScore (score s) 0;
                      Header "Review Your Answers:"]
                   else [])
  ∧ (status s = Finished → FinalScore (score s) 0 ∈ page r).
Proof.
  intros Hf f r s'.
  assert (s' = set_questions [] s) as ->.
  { unfold s'. rewrite after_script, script_StartQuiz_none by done.
    cbn [store]. by rewrite initialize_persist. }
  unfold r. rewrite script_StartQuiz_none by done.
  repeat (split; [done|]).
  cbn [page]. unfold status.
  destruct (quiz_started s); [done|].
  destruct (bool_decide (user_answers s ≠ ∅)); [|done].
  intros _. rewrite elem_of_app. right. set_solver.
Qed.

(** *** Play Again *)

(** C8: the Play Again handler deletes every key of the session store,
    whatever the store holds, and the rerun that follows re-creates the
    keys with their defaults: the quiz not started and no recorded
    answer (the welcome page), score 0, current index 0, no question.
    Wherever the button is on the page (the results block), pressing it
    ends the execution in that rerun and leaves that session. *)
Theorem play_again_resets st :
  let s' := initialize_session_state (play_again st) in
  keys (play_again st) = []
  ∧ status s' = NotStarted
  ∧ quiz_started s' = false
  ∧ score s' = 0
  ∧ user_answers s' = ∅
  ∧ current_question s' = 0
  ∧ questions s' = []
  ∧ (∀ w s, status s = Finished →
       store (script unescape w PlayAgain (persist s)) = play_again (persist s)
       ∧ ending (script unescape w PlayAgain (persist s)) = Rerun
       ∧ after unescape w PlayAgain s = s').
Proof.
  rewrite play_again_cleared. cbn zeta.
  repeat (split; [done|]).
  intros w s Hfin.
  assert (quiz_started s = false ∧ bool_decide (user_answers s ≠ ∅) = true)
    as [Hq Ha].
  { unfold status in Hfin. destruct (quiz_started s); [done|].
    by destruct (bool_decide (user_answers s ≠ ∅)). }
  assert (script unescape w PlayAgain (persist s)
          = {| store := play_again (persist s);
               page := Info welcome :: [Balloons; Header "Quiz Over!";
                         FinalScore (score s) (length (questions s));
                         Header "Review Your Answers:"] ++ concat (review unescape s);
               world := w; ending := Rerun |}) as Hscript.
  { unfold script. rewrite initialize_persist.
    cbn [sidebar b_ending b_world b_session b_page].
    unfold main_area. rewrite Hq. cbn [negb b_ending b_world b_session b_page].
    unfold results. rewrite Hq, Ha. done. }
  rewrite after_script, Hscript. cbn [store ending].
  by rewrite play_again_cleared.
Qed.

(** *** A whole quiz: Start Quiz, then one answer per question *)

Lemma hits_nil_l qs : hits unescape [] qs = 0.
Proof. done. Qed.

Lemma hits_cons a choices q qs :
  hits unescape (a :: choices) (q :: qs)
  = (if bool_decide (a = unescape (correctAnswer q)) then 1 else 0)
    + hits unescape choices qs.
Proof.
  unfold hits. cbn [zip zip_with]. rewrite filter_cons. cbn [fst snd].
  case_decide; case_bool_decide; done.
Qed.

Lemma interact_SubmitAnswer w a s q :
  quiz_started s = true →
  questions s !! current_question s = Some q →
  store (interact unescape w (SubmitAnswer a) (persist s))
  = persist (submit_answer a (unescape (correctAnswer q)) s).1.
Proof.
  intros Hq Hl. unfold interact.
  rewrite (script_SubmitAnswer w a s q) by done.
  cbn [ending store world]. apply script_Rerender.
Qed.

Lemma interact_StartQuiz_some w sp sports difficulty num q qs s :
  returned (fetch_quiz_questions (net w) (SPORTS_CATEGORIES <$> sp :: sports)
              difficulty num) = q :: qs →
  store (interact unescape w (StartQuiz (sp :: sports) difficulty num) (persist s))
  = persist {| quiz_started := true; questions := q :: qs; score := 0;
               current_question := 0; user_answers := ∅ |}.
Proof.
  intros Hf. unfold interact.
  rewrite (script_StartQuiz_some _ _ _ _ _ q qs) by done.
  cbn [ending store world]. apply script_Rerender.
Qed.

(** Answers submitted one after the other in a started quiz, no more of
    them than questions are left: each moves to the next question, the
    score grows by the number of right ones, and the quiz is over exactly
    when the last question has been answered. *)
Lemma submit_all choices : ∀ w s,
  quiz_started s = true →
  current_question s < length (questions s) →
  current_question s + length choices ≤ length (questions s) →
  let s' := initialize_session_state
              (interact_all unescape w (SubmitAnswer <$> choices) (persist s)).1 in
  questions s' = questions s
  ∧ current_question s' = current_question s + length choices
  ∧ score s' = score s + hits unescape choices (drop (current_question s) (questions s))
  ∧ quiz_started s'
    = negb (bool_decide (length (questions s) ≤ current_question s + length choices))
  ∧ (choices ≠ [] → user_answers s' ≠ ∅).
Proof.
  induction choices as [|a rest IH]; intros w s Hq Hlt Hle.
  - cbn [fmap list_fmap interact_all fst length]. rewrite initialize_persist.
    rewrite bool_decide_eq_false_2, hits_nil_l by lia.
    repeat split; try done; lia.
  - destruct (lookup_lt_is_Some_2 _ _ Hlt) as [q Hl].
    cbn [fmap list_fmap interact_all].
    change (list_fmap string Event SubmitAnswer rest) with (SubmitAnswer <$> rest).
    rewrite (interact_SubmitAnswer w a s q) by done.
    set (s1 := (submit_answer a (unescape (correctAnswer q)) s).1).
    set (w1 := world (interact unescape w (SubmitAnswer a) (persist s))).
    assert (questions s1 = questions s) as Hqs1 by done.
    assert (current_question s1 = current_question s + 1) as Hcur1 by done.
    assert (score s1 = score s
            + (if bool_decide (a = unescape (correctAnswer q)) then 1 else 0))
      as Hscore1.
    { unfold s1, submit_answer. cbn [fst score]. case_bool_decide; lia. }
    assert (quiz_started s1
            = negb (bool_decide (length (questions s) ≤ current_question s + 1)))
      as Hstarted1.
    { unfold s1, submit_answer. cbn [fst quiz_started]. rewrite Hq.
      by case_bool_decide. }
    assert (user_answers s1 ≠ ∅) as Hans1.
    { unfold s1, submit_answer. cbn [fst user_answers]. apply insert_non_empty. }
    rewrite (drop_S _ _ _ Hl), hits_cons. cbn [length] in Hle |- *.
    destruct rest as [|b rest'].
    + cbn [fmap list_fmap interact_all fst length]. rewrite initialize_persist.
      rewrite Hqs1, Hcur1, Hscore1, Hstarted1, hits_nil_l.
      repeat split; try done; lia.
    + cbn [length] in Hle.
      assert (quiz_started s1 = true) as Hq1.
      { rewrite Hstarted1, bool_decide_eq_false_2 by lia. done. }
      destruct (IH w1 s1 Hq1) as (H1 & H2 & H3 & H4 & H5).
      { rewrite Hqs1, Hcur1. lia. }
      { rewrite Hqs1, Hcur1. cbn [length]. lia. }
      rewrite H1, H2, H3, H4, Hqs1, Hcur1, Hscore1. cbn [length].
      replace (S (current_question s)) with (current_question s + 1) by lia.
      split; [done|]. split; [lia|]. split; [lia|]. split.
      * f_equal. apply bool_decide_ext. lia.
      * intros _. by apply H5.
Qed.

(** C2: a quiz started on a non-empty question list and answered with as
    many choices as there are questions ends with a score equal to the
    number of choices that equal the (decoded) correct answer of their
    question; the session is finished after the last answer, and in
    progress after every smaller number of answers. *)
Theorem score_counts_correct_answers w s0 sp sports difficulty num q qs choices :
  returned (fetch_quiz_questions (net w) (SPORTS_CATEGORIES <$> sp :: sports)
              difficulty num) = q :: qs →
  length choices = length (q :: qs) →
  let start := interact unescape w (StartQuiz (sp :: sports) difficulty num)
                 (persist s0) in
  let session_after k :=
    initialize_session_state
      (interact_all unescape (world start) (SubmitAnswer <$> take k choices)
         (store start)).1 in
  score (session_after (length choices)) = hits unescape choices (q :: qs)
  ∧ status (session_after (length choices)) = Finished
  ∧ (∀ k, k < length choices → status (session_after k) = InProgress).
Proof.
  intros Hf Hlen start session_after.
  set (s1 := {| quiz_started := true; questions := q :: qs; score := 0;
                current_question := 0; user_answers := ∅ |}).
  assert (store start = persist s1) as Hstart
    by (by apply interact_StartQuiz_some).
  assert (∀ k, k ≤ length choices →
    score (session_after k) = hits unescape (take k choices) (q :: qs)
    ∧ quiz_started (session_after k) = negb (bool_decide (length (q :: qs) ≤ k))
    ∧ (take k choices ≠ [] → user_answers (session_after k) ≠ ∅)) as Hk.
  { intros k Hle. unfold session_after. rewrite Hstart.
    destruct (submit_all (take k choices) (world start) s1) as (_ & _ & H3 & H4 & H5);
      [done | simpl; lia | rewrite length_take; simpl in *; lia |].
    rewrite H3, H4. cbn [s1 score current_question questions drop].
    rewrite length_take, Nat.min_l by lia. done. }
  split; [|split].
  - destruct (Hk (length choices)) as (Hs & _ & _); [done|].
    by rewrite Hs, firstn_all.
  - destruct (Hk (length choices)) as (_ & Hq & Ha); [done|].
    unfold status. rewrite Hq, bool_decide_eq_true_2 by lia. cbn [negb].
    rewrite bool_decide_eq_true_2; [done|].
    apply Ha. rewrite firstn_all. destruct choices; [done|done].
  - intros k Hlt. destruct (Hk k) as (_ & Hq & _); [lia|].
    unfold status. rewrite Hq, bool_decide_eq_false_2 by lia. done.
Qed.

(** *** The review of the results block *)

(** The review holds one container per question index that has a
    recorded answer, and none for the others. *)
Lemma review_from_length i qs (answers : gmap nat Answer) :
  length (review_from unescape i qs answers)
  = length (filter (λ j, is_Some (answers !! j)) (seq i (length qs))).
Proof.
  revert i. induction qs as [|q qs IH]; intros i; [done|].
  cbn [review_from length seq]. rewrite length_app, IH, filter_cons.
  destruct (answers !! i) eqn:Hi.
  - rewrite decide_True by eauto. done.
  - rewrite decide_False by (by intros [? ?]). done.
Qed.

Lemma review_from_full i qs (answers : gmap nat Answer) :
  (∀ j, i ≤ j < i + length qs → is_Some (answers !! j)) →
  length (review_from unescape i qs answers) = length qs
  ∧ ∀ k q, qs !! k = Some q →
      ∃ r, answers !! (i + k) = Some r
           ∧ review_from unescape i qs answers !! k
             = Some (review_container unescape (i + k) q r).
Proof.
  revert i. induction qs as [|q0 qs IH]; intros i Hall.
  - split; [done|]. intros k q Hk. by rewrite lookup_nil in Hk.
  - destruct (Hall i) as [r0 Hr0]; [cbn [length]; lia|].
    destruct (IH (S i)) as [Hlen Hlook].
    { intros j Hj. apply Hall. cbn [length]. lia. }
    cbn [review_from]. rewrite Hr0. cbn [app length].
    split; [by rewrite Hlen|].
    intros [|k] q Hk.
    + injection Hk as <-. exists r0. by rewrite Nat.add_0_r.
    + destruct (Hlook k q Hk) as (r & Hr & Hrev).
      exists r. replace (i + S k) with (S i + k) by lia. done.
Qed.

Lemma answered_fresh : answered fresh.
Proof. split; [intros i Hi; simpl in Hi; lia | intros _ Hne; done]. Qed.

Lemma answered_after w ev s : answered s → answered (after unescape w ev s).
Proof.
  intros [Hrec Hfin].
  destruct (after_cases w ev s)
    as [-> | [-> | [(q & qs & ->) | [(a & q & _ & Hq & Hl & ->) | (_ & _ & ->)]]]].
  - done.
  - split; [intros i _ Hi; simpl in Hi; lia | intros _ _; simpl; lia].
  - split; [intros i Hi; simpl in Hi; lia | done].
  - unfold submit_answer. cbn [fst]. split.
    + cbn [current_question questions user_answers]. intros i Hi Hlen.
      destruct (decide (i = current_question s)) as [->|Hne].
      * rewrite lookup_insert_eq. eauto.
      * rewrite lookup_insert_ne by done. apply Hrec; [lia|done].
    + cbn [quiz_started current_question questions user_answers].
      rewrite Hq. case_bool_decide; [done|]. done.
  - apply answered_fresh.
Qed.

Lemma Reachable_answered s : Reachable unescape s → answered s.
Proof.
  induction 1 as [|w ev s _ IH]; [apply answered_fresh | by apply answered_after].
Qed.

(** C5, as the code has it: in every finished session the app can
    reach, the review of the results block has one container per
    question, in question order: its length is the number of questions
    and its i-th container is the one of question i and of the answer
    recorded for it.  A question index with no recorded answer (no
    reachable session has one) gets no container: in any session the
    review has as many containers as there are question indices with a
    recorded answer. *)
Theorem review_covers_questions s :
  Reachable unescape s →
  status s = Finished →
  length (review unescape s) = length (questions s)
  ∧ (∀ i q, questions s !! i = Some q →
       ∃ r, user_answers s !! i = Some r
            ∧ review unescape s !! i = Some (review_container unescape i q r))
  ∧ (∀ s0, length (review unescape s0)
           = length (filter (λ j, is_Some (user_answers s0 !! j))
                       (seq 0 (length (questions s0))))).
Proof.
  intros Hreach Hfin.
  destruct (Reachable_answered s Hreach) as [Hrec Hcov].
  assert (length (questions s) ≤ current_question s) as Hle.
  { unfold status in Hfin. destruct (quiz_started s); [done|].
    case_bool_decide; [|done]. by apply Hcov. }
  destruct (review_from_full 0 (questions s) (user_answers s)) as [Hlen Hlook].
  { intros j Hj. apply Hrec; lia. }
  split; [done|]. split; [exact Hlook|].
  intros s0. apply review_from_length.
Qed.

(** *** Rendering a question again *)

(** In a session showing question [q], an execution in which no button
    is pressed shows the progress line and what [display_question]
    shows, drawn from the generator as the execution finds it; it
    leaves the store as it was and the generator advanced. *)
Lemma script_Rerender_shown w s q :
  quiz_started s = true →
  questions s !! current_question s = Some q →
  let d := display_question unescape (gen w) q (current_question s + 1) in
  script unescape w Rerender (persist s)
  = {| store := persist s;
       page := Progress (current_question s + 1) (length (questions s)) :: shown d;
       world := {| gen := gen_after d; net := net w |};
       ending := Completed |}.
Proof.
  intros Hq Hl. unfold script. rewrite initialize_persist.
  cbn [sidebar b_ending b_world b_session b_page].
  unfold main_area. rewrite Hq. cbn [negb].
  destruct (questions s) as [|q0 qs] eqn:Hqs; [by rewrite lookup_nil in Hl|].
  rewrite Hl. cbn [b_ending b_world b_session b_page].
  unfold results. rewrite Hq. cbn [negb andb store page world ending app].
  by rewrite app_nil_r.
Qed.

(** C1, as the code has it: the order of the options is drawn by
    [random.shuffle] inside [display_question] at every rendering and is
    not kept in the session.  Two renderings of the same question of
    the same session, with whatever states of the generator, leave the
    store as it was and show radio options that are permutations of
    each other and of the decoded answers, each in the order shuffled
    from the generator as that rendering finds it. *)
Theorem options_redrawn_each_render w1 w2 s q :
  quiz_started s = true →
  questions s !! current_question s = Some q →
  let r1 := script unescape w1 Rerender (persist s) in
  let r2 := script unescape w2 Rerender (persist s) in
  let answers := incorrectAnswers q ++ [correctAnswer q] in
  let o1 := unescape <$> (shuffle (gen w1) answers).1 in
  let o2 := unescape <$> (shuffle (gen w2) answers).1 in
  store r1 = persist s ∧ store r2 = persist s
  ∧ Radio o1 ∈ page r1 ∧ Radio o2 ∈ page r2
  ∧ gen (world r1) = (shuffle (gen w1) answers).2
  ∧ o1 ≡ₚ o2
  ∧ o1 ≡ₚ unescape <$> answers.
Proof.
  intros Hq Hl r1 r2 answers o1 o2.
  subst r1 r2 o1 o2 answers.
  rewrite !(script_Rerender_shown _ s q) by done.
  cbn [store page world gen].
  set (answers := incorrectAnswers q ++ [correctAnswer q]).
  assert (∀ g, Radio (unescape <$> (shuffle g answers).1)
               ∈ shown (display_question unescape g q (current_question s + 1)))
    as Hin.
  { intros g. unfold answers.
    rewrite <- (display_question_options g q (current_question s + 1)).
    apply display_question_shown. }
  assert (∀ g, unescape <$> (shuffle g answers).1 ≡ₚ unescape <$> answers) as Hp.
  { intros g. by rewrite shuffle_Permutation. }
  split; [done|]. split; [done|].
  split; [apply elem_of_cons; right; apply Hin|].
  split; [apply elem_of_cons; right; apply Hin|].
  split.
  { unfold display_question. fold answers. by destruct (shuffle (gen w1) answers). }
  split; [by rewrite !Hp | apply Hp].
Qed.

End Properties.

(** ** The small quiz *)

Example shuffle_counting : (shuffle counting ["B"; "C"; "A"]).1 = ["A"; "C"; "B"].
Proof. reflexivity. Qed.

Example s_played_finished : s_played = s_finished.
Proof. vm_compute. reflexivity. Qed.

(** A rendering of a question followed by another one of the same
    question, on the generator the first one left, shows the options in
    another order: the order is not fixed for the question. *)
Lemma rerender_reshuffles :
  let r1 := script plain w_demo Rerender (persist s_started) in
  let r2 := script plain (world r1) Rerender (store r1) in
  store r1 = persist s_started
  ∧ page r1 = [Progress 1 2; QuestionNumber 1; Write "Q0"; Radio ["A"; "C"; "B"]]
  ∧ page r2 = [Progress 1 2; QuestionNumber 1; Write "Q0"; Radio ["B"; "C"; "A"]]
  ∧ page r1 ≠ page r2.
Proof.
  cbn zeta. split; [reflexivity|]. split; [reflexivity|]. split; [reflexivity|].
  vm_compute. discriminate.
Qed.

Lemma options_redrawn_each_render_witness :
  quiz_started s_started = true
  ∧ questions s_started !! current_question s_started = Some q_a
  ∧ let r1 := script plain w_demo Rerender (persist s_started) in
    let r2 := script plain {| gen := λ k, k + 1; net := net_demo |} Rerender
                (persist s_started) in
    let answers := incorrectAnswers q_a ++ [correctAnswer q_a] in
    let o1 := plain <$> (shuffle counting answers).1 in
    let o2 := plain <$> (shuffle (λ k, k + 1) answers).1 in
    store r1 = persist s_started ∧ store r2 = persist s_started
    ∧ Radio o1 ∈ page r1 ∧ Radio o2 ∈ page r2
    ∧ gen (world r1) = (shuffle counting answers).2
    ∧ o1 ≡ₚ o2
    ∧ o1 ≡ₚ plain <$> answers.
Proof.
  split; [reflexivity|]. split; [reflexivity|].
  apply (options_redrawn_each_render plain w_demo
           {| gen := λ k, k + 1; net := net_demo |} s_started q_a); reflexivity.
Defined.

Lemma score_counts_correct_answers_witness :
  let start := interact plain w_demo (StartQuiz [Football] medium 5) (persist fresh) in
  let session_after k :=
    initialize_session_state
      (interact_all plain (world start) (SubmitAnswer <$> take k ["A"; "Y"])
         (store start)).1 in
  score (session_after 2) = hits plain ["A"; "Y"] [q_a; q_x]
  ∧ status (session_after 2) = Finished
  ∧ (∀ k, k < 2 → status (session_after k) = InProgress).
Proof.
  apply (score_counts_correct_answers plain w_demo fresh Football [] medium 5
           q_a [q_x] ["A"; "Y"]); reflexivity.
Defined.

Lemma submit_records_answer_witness :
  quiz_started s_started = true
  ∧ questions s_started !! current_question s_started = Some q_a
  ∧ let r := script plain w_demo (SubmitAnswer "D") (persist s_started) in
    let s' := after plain w_demo (SubmitAnswer "D") s_started in
    let correct := plain (correctAnswer q_a) in
    let d := display_question plain (gen w_demo) q_a (current_question s_started + 1) in
    store r = persist s'
    ∧ user_answers s'
      = <[current_question s_started :=
            {| user_choice := "D"; correct_answer := correct |}]>
        (user_answers s_started)
    ∧ score s' = score s_started + (if bool_decide ("D" = correct) then 1 else 0)
    ∧ current_question s' = current_question s_started + 1
    ∧ questions s' = questions s_started
    ∧ last (page r)
      = Some (if bool_decide ("D" = correct) then Success "Correct! 🎉"
              else Error ("Incorrect. The correct answer was: **" +:+ correct +:+ "**"))
    ∧ ("D" ∉ decoded_options d →
       "D" ≠ correct ∧ score s' = score s_started
       ∧ user_answers s' !! current_question s_started
         = Some {| user_choice := "D"; correct_answer := correct |}).
Proof.
  split; [reflexivity|]. split; [reflexivity|].
  apply (submit_records_answer plain w_demo "D" s_started q_a); reflexivity.
Defined.

(** A session with two questions and one recorded answer shows the
    results block with a review of one container: question 2 is left
    out of the review, not reported as unanswered. *)
Lemma review_omits_unanswered :
  status s_gap = Finished
  ∧ length (questions s_gap) = 2
  ∧ review plain s_gap
    = [[ReviewQuestion 1 "Q0"; Success "Your answer: A (Correct)"]]
  ∧ length (review plain s_gap) ≠ length (questions s_gap).
Proof.
  split; [reflexivity|]. split; [reflexivity|]. split; [reflexivity|].
  vm_compute. discriminate.
Qed.

Lemma s_played_Reachable : Reachable plain s_played.
Proof. unfold s_played. repeat apply reach_after. apply reach_fresh. Defined.

Lemma review_covers_questions_witness :
  status s_played = Finished
  ∧ length (review plain s_played) = length (questions s_played)
  ∧ (∀ i q, questions s_played !! i = Some q →
       ∃ r, user_answers s_played !! i = Some r
            ∧ review plain s_played !! i = Some (review_container plain i q r))
  ∧ (∀ s0, length (review plain s0)
           = length (filter (λ j, is_Some (user_answers s0 !! j))
                       (seq 0 (length (questions s0))))).
Proof.
  split; [reflexivity|].
  apply (review_covers_questions plain s_played s_played_Reachable). reflexivity.
Defined.



Lemma play_again_resets_witness :
  status s_finished = Finished
  ∧ store (script plain w_demo PlayAgain (persist s_finished))
    = play_again (persist s_finished)
  ∧ ending (script plain w_demo PlayAgain (persist s_finished)) = Rerun
  ∧ after plain w_demo PlayAgain s_finished = fresh.
Proof.
  split; [reflexivity|].
  apply (play_again_resets plain (persist s_finished)). reflexivity.
Defined.

Lemma s_started_in_bounds : in_bounds s_started.
Proof. intros _ _. cbn. lia. Defined.

Lemma current_question_in_bounds_witness :
  in_bounds s_started
  ∧ in_bounds (after plain w_demo (SubmitAnswer "A") s_started)
  ∧ in_bounds (initialize_session_state
                 (store (script plain w_demo (SubmitAnswer "A") (persist s_started))))
  ∧ ending (script plain w_demo (SubmitAnswer "A") (persist s_started)) ≠ Raised
  ∧ ending (interact plain w_demo (SubmitAnswer "A") (persist s_started)) ≠ Raised.
Proof.
  split; [exact s_started_in_bounds|].
  apply (current_question_in_bounds plain w_demo (SubmitAnswer "A") s_started).
  exact s_started_in_bounds.
Defined.

Lemma failed_start_keeps_session_witness :
  let w := {| gen := counting; net := always ValueError |} in
  let ev := StartQuiz [Golf] easy 5 in
  returned (fetch_quiz_questions (net w) (SPORTS_CATEGORIES <$> [Golf]) easy 5) = []
  ∧ questions (after plain w ev s_finished) = []
  ∧ score (after plain w ev s_finished) = 1
  ∧ user_answers (after plain w ev s_finished) = user_answers s_finished
  ∧ FinalScore 1 0 ∈ page (script plain w ev (persist s_finished)).
Proof.
  cbn zeta. split; [reflexivity|].
  pose proof (failed_start_keeps_session plain
                {| gen := counting; net := always ValueError |}
                Golf [] easy 5 s_finished eq_refl)
    as (_ & Hqs & _ & Hscore & _ & Hanswers & _ & _ & _ & Hshown).
  split; [exact Hqs|]. split; [exact Hscore|]. split; [exact Hanswers|].
  apply Hshown. reflexivity.
Defined.

(** ** Further behaviour of the script *)

Section Behaviour.

Variable unescape : string → string.

(** *** Executions that press no effective button *)

(** The main area looks at the action only to see whether Submit Answer
    was pressed, the results block only to see whether Play Again was. *)
Lemma main_area_not_submit w ev s :
  (∀ a, ev ≠ SubmitAnswer a) →
  main_area unescape w ev s = main_area unescape w Rerender s.
Proof.
  intros Hev. unfold main_area.
  destruct (negb (quiz_started s)); [done|].
  destruct (questions s) as [|q0 qs]; [done|].
  destruct ((q0 :: qs) !! current_question s); [|done].
  destruct ev; try done. by destruct (Hev user_answer).
Qed.

Lemma results_not_play_again w ev s :
  ev ≠ PlayAgain → results unescape w ev s = results unescape w Rerender s.
Proof.
  intros Hev. unfold results.
  destruct (negb (quiz_started s) && bool_decide (user_answers s ≠ ∅)); [|done].
  by destruct ev.
Qed.

Lemma keys_persist s : keys (persist s) = all_keys.
Proof. done. Qed.

Lemma script_Rerender_any w st :
  store (script unescape w Rerender st) = persist (initialize_session_state st)
  ∧ ending (script unescape w Rerender st) ≠ Rerun.
Proof. rewrite script_initialize. apply script_Rerender. Qed.

(** An execution in which no button is pressed changes no value of the
    session, whatever the store holds: it only creates the missing keys
    with their defaults.  It sends no request and never calls
    [st.rerun()]. *)
Theorem rerender_changes_nothing w st :
  let r := script unescape w Rerender st in
  store r = persist (initialize_session_state st)
  ∧ keys (store r) = all_keys
  ∧ net (world r) = net w
  ∧ ending r ≠ Rerun.
Proof.
  cbn zeta. destruct (script_Rerender_any w st) as [Hs He].
  rewrite Hs. split; [done|]. split; [done|].
  split; [apply script_Rerender_net | done].
Qed.

(** Whatever the action and the store, once the action and the rerun it
    may ask for are over, the five keys exist (also after Play Again
    deleted them) and no further rerun is pending: an action causes at
    most one rerun. *)
Theorem action_settles w ev st :
  keys (store (interact unescape w ev st)) = all_keys
  ∧ ending (interact unescape w ev st) ≠ Rerun.
Proof.
  unfold interact.
  destruct (ending (script unescape w ev st)) eqn:He.
  - split; [|by rewrite He].
    revert He. unfold script.
    destruct (b_ending (sidebar w ev _)); cbn [ending store]; [|done..].
    destruct (b_ending (main_area unescape _ ev _)); cbn [ending store]; [|done..].
    unfold results.
    destruct (negb _ && bool_decide _); [|done].
    by destruct ev.
  - destruct (script_Rerender_any (world (script unescape w ev st))
                (store (script unescape w ev st))) as [Hs Hr].
    by rewrite Hs.
  - split; [|by rewrite He].
    revert He. unfold script.
    destruct (b_ending (sidebar w ev _)); cbn [ending store]; [|done..].
    destruct (b_ending (main_area unescape _ ev _)); cbn [ending store]; [|done..].
    intros He. by destruct (results_no_raise unescape _ _ _ He).
Qed.

(** Start Quiz with no category selected shows the warning on top of the
    page the execution would show anyway, and does nothing else: no
    request is sent and the session keeps every value. *)
Theorem start_without_category w difficulty num st :
  let r := script unescape w (StartQuiz [] difficulty num) st in
  let r0 := script unescape w Rerender st in
  page r = Warning "Please select at least one sports category." :: page r0
  ∧ store r = persist (initialize_session_state st)
  ∧ world r = world r0
  ∧ net (world r) = net w
  ∧ ending r = ending r0.
Proof.
  cbn zeta.
  assert (script unescape w (StartQuiz [] difficulty num) st
          = {| store := store (script unescape w Rerender st);
               page := Warning "Please select at least one sports category."
                       :: page (script unescape w Rerender st);
               world := world (script unescape w Rerender st);
               ending := ending (script unescape w Rerender st) |}) as ->.
  { unfold script. cbn [sidebar b_ending b_world b_session b_page].
    rewrite (main_area_not_submit w (StartQuiz [] difficulty num)) by done.
    destruct (b_ending (main_area unescape w Rerender _)); [|done..].
    by rewrite (results_not_play_again _ (StartQuiz [] difficulty num)). }
  cbn [page store world ending].
  destruct (script_Rerender_any w st) as [Hs _].
  by rewrite script_Rerender_net.
Qed.

(** *** Start Quiz *)

(** A successful Start Quiz replaces the whole session, whatever it
    held and whatever number of questions was asked for: the questions
    are the list the API sent, score and index are 0, no answer is
    recorded.  The page then shows question 1 of that list, with the
    progress "1 of len(questions)", its options shuffled from the
    generator as the click found it. *)
Theorem start_shows_first_question w sp sports difficulty num q qs s :
  returned (fetch_quiz_questions (net w) (SPORTS_CATEGORIES <$> sp :: sports)
              difficulty num) = q :: qs →
  let r := interact unescape w (StartQuiz (sp :: sports) difficulty num) (persist s) in
  store r = persist {| quiz_started := true; questions := q :: qs; score := 0;
                       current_question := 0; user_answers := ∅ |}
  ∧ page r = Progress 1 (length (q :: qs))
             :: shown (display_question unescape (gen w) q 1)
  ∧ ending r = Completed.
Proof.
  intros Hf. cbn zeta. unfold interact.
  rewrite (script_StartQuiz_some unescape _ _ _ _ _ q qs) by done.
  cbn [ending store world].
  by rewrite (script_Rerender_shown unescape _ _ q).
Qed.

Lemma categories_constant (sel : list Sport) :
  SPORTS_CATEGORIES <$> sel = replicate (length sel) "sport_and_leisure".
Proof.
  induction sel as [|sp sel IH]; [done|].
  cbn [fmap list_fmap length replicate]. f_equal; [by destruct sp | exact IH].
Qed.

(** Every sport of [SPORTS_CATEGORIES] maps to the same API category, so
    a Start Quiz depends on how many sports are selected and not on
    which: two selections of the same size send the same request and
    give the same execution. *)
Theorem selection_counts_only w sel1 sel2 difficulty num st :
  length sel1 = length sel2 →
  SPORTS_CATEGORIES <$> sel1 = SPORTS_CATEGORIES <$> sel2
  ∧ script unescape w (StartQuiz sel1 difficulty num) st
    = script unescape w (StartQuiz sel2 difficulty num) st.
Proof.
  intros Hlen.
  assert (SPORTS_CATEGORIES <$> sel1 = SPORTS_CATEGORIES <$> sel2) as Hcats
    by (by rewrite !categories_constant, Hlen).
  split; [done|].
  assert (∀ s, sidebar w (StartQuiz sel1 difficulty num) s
               = sidebar w (StartQuiz sel2 difficulty num) s) as Hside.
  { intros s. destruct sel1 as [|sp1 sel1], sel2 as [|sp2 sel2]; try done.
    unfold sidebar. by rewrite Hcats. }
  unfold script. rewrite Hside.
  rewrite (main_area_not_submit _ (StartQuiz sel1 difficulty num)) by done.
  rewrite (main_area_not_submit _ (StartQuiz sel2 difficulty num)) by done.
  rewrite (results_not_play_again _ (StartQuiz sel1 difficulty num)) by done.
  by rewrite (results_not_play_again _ (StartQuiz sel2 difficulty num)) by done.
Qed.

(** *** What the page shows *)

Lemma script_Rerender_idle w s :
  quiz_started s = false →
  let r := script unescape w Rerender (persist s) in
  page r = Info welcome ::
           (if bool_decide (user_answers s ≠ ∅) then
              [Balloons; Header "Quiz Over!";
               FinalScore (score s) (length (questions s));
               Header "Review Your Answers:"] ++ concat (review unescape s)
            else [])
  ∧ world r = w
  ∧ ending r = Completed.
Proof.
  intros Hq. cbn zeta. unfold script. rewrite initialize_persist.
  cbn [sidebar b_ending b_world b_session b_page].
  unfold main_area. rewrite Hq. cbn [negb b_ending b_world b_session b_page].
  unfold results. rewrite Hq. cbn [negb andb].
  by destruct (bool_decide (user_answers s ≠ ∅)).
Qed.


(** A session marked started with an empty question list (what a Start
    Quiz whose fetch returned nothing leaves of a quiz in progress)
    shows an empty page: no welcome text, no question, no results.
    Submit Answer and Play Again are not on it; every action leaves the
    session as it is, except a Start Quiz that fetches questions. *)
Theorem started_without_questions w ev s :
  quiz_started s = true →
  questions s = [] →
  page (script unescape w Rerender (persist s)) = []
  ∧ (after unescape w ev s = s
     ∨ ∃ q qs, after unescape w ev s
               = {| quiz_started := true; questions := q :: qs; score := 0;
                    current_question := 0; user_answers := ∅ |}).
Proof.
  intros Hq Hqs. split.
  - unfold script. rewrite initialize_persist.
    cbn [sidebar b_ending b_world b_session b_page].
    unfold main_area. rewrite Hq, Hqs. cbn [negb b_ending b_world b_session b_page].
    unfold results. rewrite Hq. done.
  - destruct (after_cases unescape w ev s)
      as [-> | [-> | [(q & qs & ->) | [(a & q & _ & _ & Hl & _) | (_ & Hfin & _)]]]].
    + by left.
    + left. destruct s; simpl in *. by subst.
    + right. eauto.
    + by rewrite Hqs, lookup_nil in Hl.
    + unfold status in Hfin. by rewrite Hq in Hfin.
Qed.

(** In every session the app can reach, a started quiz with questions
    shows "Question k of n" with [1 <= k <= n], k being the index after
    the current one, followed by the current question. *)
Theorem progress_within_bounds w s :
  Reachable unescape s →
  quiz_started s = true →
  questions s ≠ [] →
  ∃ q, questions s !! current_question s = Some q
       ∧ page (script unescape w Rerender (persist s))
         = Progress (current_question s + 1) (length (questions s))
           :: shown (display_question unescape (gen w) q (current_question s + 1))
       ∧ 1 ≤ current_question s + 1 ≤ length (questions s).
Proof.
  intros Hreach Hq Hne.
  pose proof (Reachable_in_bounds unescape s Hreach Hq Hne) as Hlt.
  destruct (lookup_lt_is_Some_2 _ _ Hlt) as [q Hl].
  exists q. split; [done|].
  rewrite (script_Rerender_shown unescape w s q) by done.
  split; [done | lia].
Qed.


(** [display_question] shows an image exactly when the question has an
    ["image"] key holding a non-empty string, and then that string. *)
Theorem image_shown_iff g q n url :
  Image url ∈ shown (display_question unescape g q n)
  ↔ image q = Some url ∧ url ≠ "".
Proof.
  unfold display_question.
  destruct (shuffle g (incorrectAnswers q ++ [correctAnswer q])) as [opts g'].
  cbn [shown].
  destruct (image q) as [u|]; [case_bool_decide as Hu|]; cbn [app];
    rewrite ?elem_of_cons, ?elem_of_nil.
  - split; [intros [Hin|[Hin|[Hin|[]]]]; discriminate Hin|].
    intros [[= ->] Hne]. done.
  - split.
    + intros [Hin|[Hin|[Hin|[Hin|[]]]]]; try discriminate Hin.
      injection Hin as ->. done.
    + intros [[= ->] _]. auto.
  - split; [intros [Hin|[Hin|[Hin|[]]]]; discriminate Hin|].
    intros [Hin _]. discriminate Hin.
Qed.

(** *** Score, recorded answers and review of reachable sessions *)

Lemma right_answers_insert (answers : gmap nat Answer) n i r :
  n ≤ i → right_answers (<[i:=r]> answers) n = right_answers answers n.
Proof.
  induction n as [|n IH]; intros Hle; [done|].
  cbn [right_answers]. rewrite IH by lia.
  unfold is_right. by rewrite lookup_insert_ne by lia.
Qed.

Lemma right_answers_le (answers : gmap nat Answer) n : right_answers answers n ≤ n.
Proof.
  induction n as [|n IH]; [done|].
  cbn [right_answers]. destruct (is_right answers n); lia.
Qed.

(** Submit Answer either finds no question to answer and changes
    nothing, or records one answer. *)
Lemma after_SubmitAnswer w a s :
  after unescape w (SubmitAnswer a) s = s
  ∨ ∃ q, quiz_started s = true
         ∧ questions s !! current_question s = Some q
         ∧ after unescape w (SubmitAnswer a) s
           = (submit_answer a (unescape (correctAnswer q)) s).1.
Proof.
  rewrite after_script.
  destruct (quiz_started s) eqn:Hq;
    [destruct (questions s !! current_question s) as [q|] eqn:Hl|].
  - right. exists q. repeat split; try done.
    rewrite (script_SubmitAnswer unescape w a s q) by done.
    cbn [store]. by rewrite initialize_persist.
  - left. unfold script. rewrite initialize_persist.
    cbn [sidebar b_ending b_world b_session b_page].
    unfold main_area. rewrite Hq. cbn [negb].
    destruct (questions s) as [|q0 qs] eqn:Hqs.
    + cbn [b_ending b_session b_world store].
      by rewrite results_store, initialize_persist.
    + rewrite Hl. cbn [b_ending b_session store].
      by rewrite initialize_persist.
  - left. unfold script. rewrite initialize_persist.
    cbn [sidebar b_ending b_world b_session b_page].
    unfold main_area. rewrite Hq. cbn [negb b_ending b_session b_world store].
    by rewrite results_store, initialize_persist.
Qed.

(** What every reachable session satisfies: answers are recorded for the
    indices below the current one and for no other, the score is the
    number of right ones among them, and the index is at most the
    number of questions while there are questions. *)
Lemma Reachable_counts s :
  Reachable unescape s →
  (∀ i, is_Some (user_answers s !! i) ↔ i < current_question s)
  ∧ score s = right_answers (user_answers s) (current_question s)
  ∧ (questions s ≠ [] → current_question s ≤ length (questions s)).
Proof.
  induction 1 as [|w ev s _ (Hdom & Hscore & Hcur)].
  - split; [|done]. intros i. cbn. rewrite lookup_empty. split; [by intros [? ?]|lia].
  - destruct (after_cases unescape w ev s)
      as [-> | [-> | [(q & qs & ->) | [(a & q & _ & Hq & Hl & ->) | (_ & _ & ->)]]]].
    + done.
    + done.
    + split; [|split; [done|cbn; lia]].
      intros i. cbn. rewrite lookup_empty. split; [by intros [? ?]|lia].
    + apply lookup_lt_Some in Hl.
      unfold submit_answer.
      cbn [fst user_answers score current_question questions].
      split; [|split].
      * intros i. destruct (decide (i = current_question s)) as [->|Hne].
        { rewrite lookup_insert_eq. split; [lia|eauto]. }
        rewrite lookup_insert_ne by done. rewrite Hdom. lia.
      * replace (current_question s + 1) with (S (current_question s)) by lia.
        cbn [right_answers]. rewrite right_answers_insert by lia.
        unfold is_right. rewrite lookup_insert_eq. cbn [user_choice correct_answer].
        rewrite Hscore. case_bool_decide; lia.
      * intros _. lia.
    + split; [|done]. intros i. cbn. rewrite lookup_empty.
      split; [by intros [? ?]|lia].
Qed.

(** In every session the app can reach, an answer is recorded for
    exactly the question indices below the current one; Submit Answer
    therefore writes under an index that holds nothing, and every
    answer recorded before it is still there, unchanged, after it. *)
Theorem answers_never_overwritten w a s :
  Reachable unescape s →
  (∀ i, is_Some (user_answers s !! i) ↔ i < current_question s)
  ∧ user_answers s !! current_question s = None
  ∧ user_answers s ⊆ user_answers (after unescape w (SubmitAnswer a) s).
Proof.
  intros Hreach. destruct (Reachable_counts s Hreach) as (Hdom & _ & _).
  assert (user_answers s !! current_question s = None) as Hnone.
  { apply eq_None_not_Some. rewrite Hdom. lia. }
  split; [done|]. split; [done|].
  destruct (after_SubmitAnswer w a s) as [-> | (q & _ & _ & ->)]; [done|].
  unfold submit_answer. cbn [fst user_answers]. by apply insert_subseteq.
Qed.

(** In every session the app can reach, the score is the number of
    recorded answers whose choice equals their correct answer; it never
    exceeds the number of answers given. *)
Theorem score_counts_right_answers s :
  Reachable unescape s →
  score s = right_answers (user_answers s) (current_question s)
  ∧ score s ≤ current_question s.
Proof.
  intros Hreach. destruct (Reachable_counts s Hreach) as (_ & Hscore & _).
  split; [done|]. rewrite Hscore. apply right_answers_le.
Qed.

Lemma marked_correct_app (r1 r2 : list (list Element)) :
  marked_correct (r1 ++ r2) = marked_correct r1 + marked_correct r2.
Proof. unfold marked_correct. by rewrite filter_app, length_app. Qed.

Lemma marked_correct_container i q r :
  marked_correct [review_container unescape i q r]
  = if bool_decide (user_choice r = correct_answer r) then 1 else 0.
Proof.
  unfold marked_correct, review_container. rewrite filter_cons, filter_nil.
  by case_bool_decide.
Qed.

Lemma marked_correct_review_from i qs (answers : gmap nat Answer) :
  marked_correct (review_from unescape i qs answers) + right_answers answers i
  = right_answers answers (i + length qs).
Proof.
  revert i. induction qs as [|q qs IH]; intros i.
  - cbn [review_from length]. by rewrite Nat.add_0_r.
  - cbn [review_from length]. rewrite marked_correct_app.
    replace (i + S (length qs)) with (S i + length qs) by lia.
    rewrite <- IH. cbn [right_answers]. unfold is_right.
    destruct (answers !! i) as [r|].
    + rewrite marked_correct_container. lia.
    + cbn. lia.
Qed.

(** When a quiz the app ran has been finished and its questions are
    still stored, every question has been answered, and the final score
    the results block shows is the number of review entries it marks
    "(Correct)". *)
Theorem final_score_matches_review s :
  Reachable unescape s →
  status s = Finished →
  questions s ≠ [] →
  current_question s = length (questions s)
  ∧ score s = marked_correct (review unescape s)
  ∧ score s ≤ length (questions s).
Proof.
  intros Hreach Hfin Hne.
  destruct (Reachable_counts s Hreach) as (_ & Hscore & Hcur).
  destruct (Reachable_answered unescape s Hreach) as [_ Hcov].
  assert (current_question s = length (questions s)) as Hlen.
  { apply Nat.le_antisymm; [by apply Hcur|].
    unfold status in Hfin. destruct (quiz_started s); [done|].
    case_bool_decide; [by apply Hcov | done]. }
  split; [done|].
  pose proof (marked_correct_review_from 0 (questions s) (user_answers s)) as Hm.
  cbn [right_answers] in Hm. rewrite Nat.add_0_r in Hm. cbn [plus] in Hm.
  unfold review. rewrite Hm, Hscore, Hlen. split; [done|].
  apply right_answers_le.
Qed.

(** *** The orders the shuffle can give *)





(** *** From one page to the next *)

(** After an answer to a question that is not the last one, the page
    shows the next question, numbered one higher, its options shuffled
    from the generator as the rendering of the answered question left
    it. *)
Theorem submit_moves_to_next_question w a s q q' :
  quiz_started s = true →
  questions s !! current_question s = Some q →
  questions s !! (current_question s + 1) = Some q' →
  let d := display_question unescape (gen w) q (current_question s + 1) in
  let r := interact unescape w (SubmitAnswer a) (persist s) in
  page r = Progress (current_question s + 2) (length (questions s))
           :: shown (display_question unescape (gen_after d) q' (current_question s + 2))
  ∧ status (initialize_session_state (store r)) = InProgress
  ∧ ending r = Completed.
Proof.
  intros Hq Hl Hl'. cbn zeta. unfold interact.
  rewrite (script_SubmitAnswer unescape w a s q) by done.
  cbn [ending store world].
  set (s' := (submit_answer a (unescape (correctAnswer q)) s).1).
  assert (quiz_started s' = true) as Hq'.
  { unfold s', submit_answer. cbn [fst quiz_started]. rewrite Hq.
    apply lookup_lt_Some in Hl'. by rewrite bool_decide_eq_false_2 by lia. }
  assert (questions s' !! current_question s' = Some q') as Hl'' by done.
  rewrite (script_Rerender_shown unescape _ s' q') by done.
  cbn [page store ending gen]. rewrite initialize_persist.
  unfold status. rewrite Hq'.
  replace (current_question s' + 1) with (current_question s + 2)
    by (unfold s', submit_answer; cbn; lia).
  done.
Qed.

(** After the answer to the last question the page is the results page:
    the welcome text, then the final score, which counts this answer,
    out of the number of questions, then the review. *)
Theorem last_answer_shows_results w a s q :
  quiz_started s = true →
  questions s !! current_question s = Some q →
  current_question s + 1 = length (questions s) →
  let s' := after unescape w (SubmitAnswer a) s in
  let r := interact unescape w (SubmitAnswer a) (persist s) in
  page r = [Info welcome; Balloons; Header "Quiz Over!";
            FinalScore (score s + if bool_decide (a = unescape (correctAnswer q))
                                  then 1 else 0)
                       (length (questions s));
            Header "Review Your Answers:"] ++ concat (review unescape s')
  ∧ status s' = Finished
  ∧ ending r = Completed.
Proof.
  intros Hq Hl Hlast s' r.
  assert (s' = (submit_answer a (unescape (correctAnswer q)) s).1) as Hs'.
  { unfold s'. rewrite after_script, (script_SubmitAnswer unescape w a s q) by done.
    cbn [store]. by rewrite initialize_persist. }
  assert (quiz_started s' = false) as Hq'.
  { rewrite Hs'. unfold submit_answer. cbn [fst quiz_started].
    by rewrite bool_decide_eq_true_2 by lia. }
  assert (user_answers s' ≠ ∅) as Ha'.
  { rewrite Hs'. unfold submit_answer. cbn [fst user_answers].
    apply insert_non_empty. }
  assert (score s' = score s + if bool_decide (a = unescape (correctAnswer q))
                               then 1 else 0) as Hsc.
  { rewrite Hs'. unfold submit_answer. cbn [fst score]. case_bool_decide; lia. }
  assert (questions s' = questions s) as Hqs by (by rewrite Hs').
  unfold r, interact.
  rewrite (script_SubmitAnswer unescape w a s q) by done.
  cbn [ending store world]. rewrite <- Hs'.
  destruct (script_Rerender_idle {| gen := gen_after
                            (display_question unescape (gen w) q (current_question s + 1));
                         net := net w |} s' Hq') as (Hp & _ & He).
  rewrite Hp, He, bool_decide_eq_true_2, Hsc, Hqs by done.
  split; [done|]. split; [|done].
  unfold status. by rewrite Hq', bool_decide_eq_true_2.
Qed.

(** *** The states of a session *)

Lemma after_Rerender w s : after unescape w Rerender s = s.
Proof.
  rewrite after_script, (proj1 (script_Rerender unescape w s)).
  apply initialize_persist.
Qed.

Lemma after_PlayAgain w s :
  after unescape w PlayAgain s = s
  ∨ (status s = Finished ∧ after unescape w PlayAgain s = fresh).
Proof.
  rewrite after_script. unfold script. rewrite initialize_persist.
  cbn [sidebar b_ending b_world b_session b_page].
  assert (b_session (main_area unescape w PlayAgain s) = s)
    as Hm by (by apply main_area_session).
  destruct (b_ending (main_area unescape w PlayAgain s)); cbn [store];
    rewrite ?Hm, ?initialize_persist; auto.
  unfold results, status.
  destruct (quiz_started s); cbn [negb andb store];
    rewrite ?initialize_persist; auto.
  destruct (bool_decide (user_answers s ≠ ∅)); cbn [store];
    rewrite ?initialize_persist, ?play_again_cleared; auto.
Qed.

Lemma status_set_questions qs s : status (set_questions qs s) = status s.
Proof. done. Qed.

(** The states of a session and the actions that move it from one to
    another: a session that is not started stays so until a Start Quiz
    starts it; a started one stays so until a Submit Answer finishes it;
    a finished one stays so until a Start Quiz starts a new quiz or Play
    Again resets it.  No other move exists. *)
Theorem status_transitions w ev s :
  let s' := after unescape w ev s in
  match status s with
  | NotStarted =>
      status s' = NotStarted
      ∨ (status s' = InProgress ∧ ∃ sel difficulty num, ev = StartQuiz sel difficulty num)
  | InProgress =>
      status s' = InProgress
      ∨ (status s' = Finished ∧ ∃ a, ev = SubmitAnswer a)
  | Finished =>
      status s' = Finished
      ∨ (status s' = InProgress ∧ ∃ sel difficulty num, ev = StartQuiz sel difficulty num)
      ∨ (status s' = NotStarted ∧ ev = PlayAgain)
  end.
Proof.
  cbn zeta. destruct ev as [|sel difficulty num|a|].
  - rewrite after_Rerender. destruct (status s); auto.
  - destruct (after_cases unescape w (StartQuiz sel difficulty num) s)
      as [-> | [-> | [(q & qs & ->) | [(a & q & Hev & _) | (Hev & _)]]]];
      try discriminate Hev.
    + destruct (status s); auto.
    + rewrite status_set_questions. destruct (status s); auto.
    + destruct (status s); cbn; eauto 10.
  - destruct (after_SubmitAnswer w a s) as [-> | (q & Hq & _ & ->)].
    + destruct (status s); auto.
    + unfold status at 1. rewrite Hq.
      unfold status, submit_answer. cbn [fst quiz_started user_answers]. rewrite Hq.
      case_bool_decide; [|by left].
      right. split; [|eauto].
      rewrite bool_decide_eq_true_2; [done|]. apply insert_non_empty.
  - destruct (after_PlayAgain w s) as [-> | [Hfin ->]].
    + destruct (status s); auto.
    + rewrite Hfin. auto.
Qed.

(** An answer never changes the question list; it moves the index
    forward by at most one and raises the score by at most one, and the
    score moves only when the index does. *)
Theorem answer_moves_forward w a s :
  let s' := after unescape w (SubmitAnswer a) s in
  questions s' = questions s
  ∧ current_question s ≤ current_question s' ≤ current_question s + 1
  ∧ score s ≤ score s'
  ∧ score s' - score s ≤ current_question s' - current_question s.
Proof.
  cbn zeta. destruct (after_SubmitAnswer w a s) as [-> | (q & _ & _ & ->)].
  - repeat split; lia.
  - unfold submit_answer. cbn [fst questions current_question score].
    case_bool_decide; repeat split; lia.
Qed.

End Behaviour.

(** ** A whole quiz and its review *)

Section WholeQuiz.

Variable unescape : string → string.

(** Answers submitted one after the other are recorded under successive
    indices, each with the decoded correct answer of its question, and
    leave the earlier records as they were. *)
Lemma submit_all_records choices : ∀ w s,
  quiz_started s = true →
  current_question s < length (questions s) →
  current_question s + length choices ≤ length (questions s) →
  let s' := initialize_session_state
              (interact_all unescape w (SubmitAnswer <$> choices) (persist s)).1 in
  (∀ i, i < current_question s → user_answers s' !! i = user_answers s !! i)
  ∧ (∀ k c, choices !! k = Some c →
       ∃ q, questions s !! (current_question s + k) = Some q
            ∧ user_answers s' !! (current_question s + k)
              = Some {| user_choice := c;
                        correct_answer := unescape (correctAnswer q) |}).
Proof.
  induction choices as [|a rest IH]; intros w s Hq Hlt Hle.
  - cbn [fmap list_fmap interact_all fst]. rewrite initialize_persist.
    split; [done|]. intros k c Hk. by rewrite lookup_nil in Hk.
  - destruct (lookup_lt_is_Some_2 _ _ Hlt) as [q Hl].
    cbn [fmap list_fmap interact_all].
    change (list_fmap string Event SubmitAnswer rest) with (SubmitAnswer <$> rest).
    rewrite (interact_SubmitAnswer unescape w a s q) by done.
    set (s1 := (submit_answer a (unescape (correctAnswer q)) s).1).
    set (w1 := world (interact unescape w (SubmitAnswer a) (persist s))).
    assert (questions s1 = questions s) as Hqs1 by done.
    assert (current_question s1 = current_question s + 1) as Hcur1 by done.
    assert (user_answers s1
            = <[current_question s := {| user_choice := a;
                  correct_answer := unescape (correctAnswer q) |}]> (user_answers s))
      as Hans1 by done.
    cbn [length] in Hle.
    assert (∀ s', (∀ i, i < current_question s1 →
                        user_answers s' !! i = user_answers s1 !! i) →
                  (∀ i, i < current_question s →
                        user_answers s' !! i = user_answers s !! i)
                  ∧ user_answers s' !! current_question s
                    = Some {| user_choice := a;
                              correct_answer := unescape (correctAnswer q) |})
      as Hkeep.
    { intros s' Hs'. split.
      - intros i Hi. rewrite Hs', Hans1 by lia. by rewrite lookup_insert_ne by lia.
      - rewrite Hs', Hans1 by lia. apply lookup_insert_eq. }
    destruct rest as [|b rest'].
    + cbn [fmap list_fmap interact_all fst]. rewrite initialize_persist.
      destruct (Hkeep s1) as [Hold Hnew]; [done|].
      split; [done|]. intros [|k] c Hk; [|by destruct k].
      injection Hk as <-. exists q. by rewrite Nat.add_0_r.
    + cbn [length] in Hle.
      assert (quiz_started s1 = true) as Hq1.
      { unfold s1, submit_answer. cbn [fst quiz_started]. rewrite Hq.
        by rewrite bool_decide_eq_false_2 by lia. }
      destruct (IH w1 s1 Hq1) as [Hbelow Hrec].
      { rewrite Hqs1, Hcur1. lia. }
      { rewrite Hqs1, Hcur1. cbn [length]. lia. }
      destruct (Hkeep _ Hbelow) as [Hold Hnew].
      split; [done|]. intros [|k] c Hk.
      * injection Hk as <-. exists q. by rewrite Nat.add_0_r.
      * destruct (Hrec k c Hk) as (qk & Hqk & Hans).
        rewrite Hqs1, Hcur1 in Hqk. rewrite Hcur1 in Hans.
        exists qk.
        by replace (current_question s + S k) with (current_question s + 1 + k) by lia.
Qed.

(** After a quiz started on a non-empty list and answered with one
    choice per question, the review lists, in question order, every
    question with the choice that was submitted for it and its correct
    answer: its k-th container is the one of question k and of the k-th
    choice. *)
Theorem review_shows_submitted_choices w s0 sp sports difficulty num q qs choices :
  returned (fetch_quiz_questions (net w) (SPORTS_CATEGORIES <$> sp :: sports)
              difficulty num) = q :: qs →
  length choices = length (q :: qs) →
  let start := interact unescape w (StartQuiz (sp :: sports) difficulty num)
                 (persist s0) in
  let s' := initialize_session_state
              (interact_all unescape (world start) (SubmitAnswer <$> choices)
                 (store start)).1 in
  questions s' = q :: qs
  ∧ ∀ k c qk, choices !! k = Some c → (q :: qs) !! k = Some qk →
      review unescape s' !! k
      = Some (review_container unescape k qk
                {| user_choice := c;
                   correct_answer := unescape (correctAnswer qk) |}).
Proof.
  intros Hf Hlen start s'.
  set (s1 := {| quiz_started := true; questions := q :: qs; score := 0;
                current_question := 0; user_answers := ∅ |}).
  assert (store start = persist s1) as Hstart
    by (by apply interact_StartQuiz_some).
  destruct (submit_all unescape choices (world start) s1) as (Hqs & _);
    [done | cbn; lia | cbn in *; lia |].
  destruct (submit_all_records choices (world start) s1) as [_ Hrec];
    [done | cbn; lia | cbn in *; lia |].
  unfold s'. rewrite Hstart. cbn zeta in Hqs, Hrec.
  set (sf := initialize_session_state
               (interact_all unescape (world start) (SubmitAnswer <$> choices)
                  (persist s1)).1) in *.
  split; [done|].
  destruct (review_from_full unescape 0 (questions sf) (user_answers sf))
    as [_ Hlook].
  { intros j Hj. rewrite Hqs in Hj. cbn [s1 questions] in Hj.
    destruct (lookup_lt_is_Some_2 choices j) as [c Hc]; [lia|].
    destruct (Hrec j c Hc) as (qj & _ & Hans). cbn in Hans. eauto. }
  intros k c qk Hk Hqk.
  destruct (Hlook k qk) as (r & Hr & Hrev); [by rewrite Hqs|].
  destruct (Hrec k c Hk) as (qk' & Hqk' & Hans).
  cbn [s1 current_question questions plus] in Hqk', Hans.
  cbn [plus] in Hr, Hrev.
  unfold review. rewrite Hrev. congruence.
Qed.

End WholeQuiz.

(** ** The small quiz, further *)

Lemma start_shows_first_question_witness :
  let r := interact plain w_demo (StartQuiz [Football] medium 5) (persist s_finished) in
  store r = persist s_started
  ∧ page r = Progress 1 2 :: shown (display_question plain counting q_a 1)
  ∧ ending r = Completed.
Proof.
  apply (start_shows_first_question plain w_demo Football [] medium 5 q_a [q_x]
           s_finished).
  reflexivity.
Defined.

Lemma selection_counts_only_witness :
  length [Football; Tennis] = length [Golf; MMA]
  ∧ SPORTS_CATEGORIES <$> [Football; Tennis] = SPORTS_CATEGORIES <$> [Golf; MMA]
  ∧ script plain w_demo (StartQuiz [Football; Tennis] hard 7) cleared
    = script plain w_demo (StartQuiz [Golf; MMA] hard 7) cleared.
Proof.
  split; [reflexivity|].
  apply (selection_counts_only plain w_demo [Football; Tennis] [Golf; MMA] hard 7
           cleared).
  reflexivity.
Defined.


Lemma started_without_questions_witness :
  let s := set_questions [] (after plain w_demo (SubmitAnswer "A") s_started) in
  quiz_started s = true
  ∧ questions s = []
  ∧ page (script plain w_demo Rerender (persist s)) = []
  ∧ (after plain w_demo PlayAgain s = s
     ∨ ∃ q qs, after plain w_demo PlayAgain s
               = {| quiz_started := true; questions := q :: qs; score := 0;
                    current_question := 0; user_answers := ∅ |}).
Proof.
  cbn zeta. split; [reflexivity|]. split; [reflexivity|].
  apply (started_without_questions plain w_demo PlayAgain
           (set_questions [] (after plain w_demo (SubmitAnswer "A") s_started)));
    reflexivity.
Defined.

Lemma s_started_Reachable :
  Reachable plain (after plain w_demo (StartQuiz [Football] medium 5) fresh).
Proof. apply reach_after, reach_fresh. Defined.

Lemma progress_within_bounds_witness :
  let s := after plain w_demo (StartQuiz [Football] medium 5) fresh in
  ∃ q, questions s !! current_question s = Some q
       ∧ page (script plain w_demo Rerender (persist s))
         = Progress (current_question s + 1) (length (questions s))
           :: shown (display_question plain (gen w_demo) q (current_question s + 1))
       ∧ 1 ≤ current_question s + 1 ≤ length (questions s).
Proof.
  apply (progress_within_bounds plain w_demo _ s_started_Reachable);
    [reflexivity | discriminate].
Defined.


Lemma answers_never_overwritten_witness :
  let s := after plain w_demo (StartQuiz [Football] medium 5) fresh in
  (∀ i, is_Some (user_answers s !! i) ↔ i < current_question s)
  ∧ user_answers s !! current_question s = None
  ∧ user_answers s ⊆ user_answers (after plain w_demo (SubmitAnswer "B") s).
Proof.
  apply (answers_never_overwritten plain w_demo "B" _ s_started_Reachable).
Defined.

Lemma score_counts_right_answers_witness :
  score s_played = right_answers (user_answers s_played) (current_question s_played)
  ∧ score s_played ≤ current_question s_played.
Proof. apply (score_counts_right_answers plain s_played s_played_Reachable). Defined.

Lemma final_score_matches_review_witness :
  status s_played = Finished
  ∧ current_question s_played = length (questions s_played)
  ∧ score s_played = marked_correct (review plain s_played)
  ∧ score s_played ≤ length (questions s_played).
Proof.
  split; [reflexivity|].
  apply (final_score_matches_review plain s_played s_played_Reachable);
    [reflexivity | discriminate].
Defined.


Lemma submit_moves_to_next_question_witness :
  let d := display_question plain (gen w_demo) q_a (current_question s_started + 1) in
  let r := interact plain w_demo (SubmitAnswer "B") (persist s_started) in
  page r = Progress (current_question s_started + 2) (length (questions s_started))
           :: shown (display_question plain (gen_after d) q_x
                       (current_question s_started + 2))
  ∧ status (initialize_session_state (store r)) = InProgress
  ∧ ending r = Completed.
Proof.
  apply (submit_moves_to_next_question plain w_demo "B" s_started q_a q_x);
    reflexivity.
Defined.

Lemma last_answer_shows_results_witness :
  let s := after plain w_demo (SubmitAnswer "A") s_started in
  let s' := after plain w_demo (SubmitAnswer "X") s in
  let r := interact plain w_demo (SubmitAnswer "X") (persist s) in
  page r = [Info welcome; Balloons; Header "Quiz Over!";
            FinalScore (score s + if bool_decide ("X" = plain (correctAnswer q_x))
                                  then 1 else 0)
                       (length (questions s));
            Header "Review Your Answers:"] ++ concat (review plain s')
  ∧ status s' = Finished
  ∧ ending r = Completed.
Proof.
  apply (last_answer_shows_results plain w_demo "X"
           (after plain w_demo (SubmitAnswer "A") s_started) q_x);
    reflexivity.
Defined.

Lemma review_shows_submitted_choices_witness :
  let start := interact plain w_demo (StartQuiz [Football] medium 5) (persist fresh) in
  let s' := initialize_session_state
              (interact_all plain (world start) (SubmitAnswer <$> ["A"; "Y"])
                 (store start)).1 in
  questions s' = [q_a; q_x]
  ∧ ∀ k c qk, ["A"; "Y"] !! k = Some c → [q_a; q_x] !! k = Some qk →
      review plain s' !! k
      = Some (review_container plain k qk
                {| user_choice := c; correct_answer := plain (correctAnswer qk) |}).
Proof.
  apply (review_shows_submitted_choices plain w_demo fresh Football [] medium 5
           q_a [q_x] ["A"; "Y"]); reflexivity.
Defined.

